(** * The resumable GitHub crawler (代码/爬取GitHub信息.py)

    A shallow embedding of the checkpointed enrichment sweep: loading the
    JSONL work list, computing the resume offset from the state file,
    resolving each GitHub link into owner and repository name, fetching the
    metadata through four paced API calls, appending the result line and
    saving the checkpoint, and the final report with the optional clean-up
    of the state file.

    The script has no functions of its own; each numbered section of the
    script becomes one definition here, named after the variable it
    computes ([repos_to_crawl], [start_index], [result_data], ...).

    Strings are byte strings (UTF-8); the operations the script applies to
    links ('in', strip('/'), split('/')) only look at ASCII bytes, which
    never occur inside a multi-byte sequence; strip() with no argument
    removes the white space of Unicode, read here off its UTF-8 bytes. *)

From Stdlib Require Import List String Ascii ZArith Bool Arith Lia.
From Stdlib Require Import DecimalString.
From Stdlib Require Import Sorted.
Import ListNotations.

Local Open Scope string_scope.
Local Open Scope list_scope.

(** ** Python string operations used by the script *)

Module PyStr.

(** [needle in hay] *)
Fixpoint contains (needle hay : string) : bool :=
  if String.prefix needle hay then true
  else match hay with
       | EmptyString => false
       | String _ hay' => contains needle hay'
       end.

(** [s.lstrip(chars)], the set of characters given as a predicate *)
Fixpoint lstrip (p : ascii -> bool) (s : string) : string :=
  match s with
  | EmptyString => EmptyString
  | String c s' => if p c then lstrip p s' else s
  end.

(** [s.rstrip(chars)] *)
Fixpoint rstrip (p : ascii -> bool) (s : string) : string :=
  match s with
  | EmptyString => EmptyString
  | String c s' =>
      match rstrip p s' with
      | EmptyString => if p c then EmptyString else String c EmptyString
      | r => String c r
      end
  end.

(** [s.strip(chars)] *)
Definition strip (p : ascii -> bool) (s : string) : string :=
  rstrip p (lstrip p s).

Definition is_slash (c : ascii) : bool := Ascii.eqb c "/"%char.

(** The white space removed by [s.strip()] with no argument.  In ASCII:
    tab, line feed, vertical tab, form feed, carriage return, the four
    separators 0x1c to 0x1f, and space. *)
Definition is_space (c : ascii) : bool :=
  let n := nat_of_ascii c in
  (((9 <=? n) && (n <=? 13)) || ((28 <=? n) && (n <=? 32)))%nat.

(** Beyond ASCII, in two bytes: U+0085 (C2 85) and U+00A0 (C2 A0). *)
Definition is_space2 (a b : ascii) : bool :=
  ((nat_of_ascii a =? 194) &&
   ((nat_of_ascii b =? 133) || (nat_of_ascii b =? 160)))%nat.

(** In three bytes: U+1680 (E1 9A 80), U+2000 to U+200A (E2 80 80 to
    E2 80 8A), U+2028 and U+2029 (E2 80 A8, E2 80 A9), U+202F (E2 80 AF),
    U+205F (E2 81 9F) and U+3000 (E3 80 80). *)
Definition is_space3 (a b c : ascii) : bool :=
  let x := nat_of_ascii a in
  let y := nat_of_ascii b in
  let z := nat_of_ascii c in
  (((x =? 225) && (y =? 154) && (z =? 128))
   || ((x =? 226) && (y =? 128) &&
       (((128 <=? z) && (z <=? 138)) || (z =? 168) || (z =? 169)
        || (z =? 175)))
   || ((x =? 226) && (y =? 129) && (z =? 159))
   || ((x =? 227) && (y =? 128) && (z =? 128)))%nat.

(** [s.lstrip()] *)
Fixpoint lstrip_space (s : string) : string :=
  match s with
  | EmptyString => EmptyString
  | String a s1 =>
      if is_space a then lstrip_space s1
      else match s1 with
           | EmptyString => s
           | String b s2 =>
               if is_space2 a b then lstrip_space s2
               else match s2 with
                    | EmptyString => s
                    | String c s3 =>
                        if is_space3 a b c then lstrip_space s3 else s
                    end
           end
  end.

(** Nothing but white space. *)
Definition blank (s : string) : bool :=
  match lstrip_space s with
  | EmptyString => true
  | String _ _ => false
  end.

(** [s.rstrip()] *)
Fixpoint rstrip_space (s : string) : string :=
  match s with
  | EmptyString => EmptyString
  | String c s' => if blank s then EmptyString else String c (rstrip_space s')
  end.

(** [s.strip()] *)
Definition strip_space (s : string) : string :=
  rstrip_space (lstrip_space s).

(** [s.split(sep)] for a one-character separator: never empty. *)
Fixpoint split (sep : ascii) (s : string) : list string :=
  match s with
  | EmptyString => [EmptyString]
  | String c s' =>
      if Ascii.eqb c sep then EmptyString :: split sep s'
      else match split sep s' with
           | [] => [String c EmptyString]
           | p :: ps => String c p :: ps
           end
  end.

(** Number of occurrences of a character. *)
Fixpoint count (sep : ascii) (s : string) : nat :=
  match s with
  | EmptyString => 0
  | String c s' => (if Ascii.eqb c sep then 1 else 0) + count sep s'
  end.

(** [str(n)] for an integer *)
Definition str_int (z : Z) : string := NilZero.string_of_int (Z.to_int z).

End PyStr.

(** ** Data model *)

(** One line of the input dataset.  The dataset's required keys are
    "总序号" (an integer) and "github链接" (a string); other keys are never
    read by the script. *)
Record WorkItem := mkWorkItem {
  item_id : Z;            (* repo_info["总序号"] *)
  github_link : string    (* repo_info["github链接"] *)
}.

(** The dict [result_data], one line of the output file. *)
Record ResultRecord := mkResult {
  rr_id : Z;                                  (* "总序号" *)
  rr_link : string;                           (* "github链接" *)
  rr_owner : string;                          (* "owner" *)
  rr_repo_name : string;                      (* "repo_name" *)
  rr_stargazers_count : option Z;
  rr_forks_count : option Z;
  rr_open_issues_count : option Z;
  rr_created_at : option string;
  rr_pushed_at : option string;
  rr_contributor_list : list (string * Z);
  rr_recent_commits_count : option Z;
  rr_total_commits_count : option Z;
  rr_error : option string
}.

(** What a failing call raises, as its handler formats it:
    [GithubException] with its status and the "message" entry of its data,
    a dict (absent when the key is missing), or any other exception,
    carried as its text [str(e)].  A [GithubException] whose data is not a
    dict, which the handler cannot format, is added in [Raw] below. *)
Inductive exn :=
| GithubException (status : Z) (message : option string)
| OtherException (text : string).

Inductive result (A : Type) :=
| Ok (a : A)
| Raise (e : exn).
Arguments Ok {A} a.
Arguments Raise {A} e.

(** The repository object returned by [g.get_repo]: its summary attributes
    and the outcome of the three later requests made through it. *)
Record Repository := mkRepository {
  full_name : string;
  stargazers_count : Z;
  forks_count : Z;
  open_issues_count : Z;
  created_at : option string;     (* isoformat(), when set *)
  pushed_at : option string;
  get_contributors : result (list (string * Z));   (* (login, contributions) *)
  get_commits_since : Z -> result Z;               (* totalCount, since a date *)
  get_commits : result Z                           (* totalCount *)
}.

(** ** Section 4 of the script: resolving the link *)

Definition host_matches (repo_url : string) : bool :=
  PyStr.contains "github.com" repo_url.

Definition parts (repo_url : string) : list string :=
  PyStr.split "/"%char (PyStr.strip PyStr.is_slash repo_url).

(** [parts[-2], parts[-1]] *)
Fixpoint last_two (l : list string) : option (string * string) :=
  match l with
  | [] => None
  | [_] => None
  | [a; b] => Some (a, b)
  | _ :: l' => last_two l'
  end.

Inductive skip_reason := NotGithubLink | UnparsableLink.

(** Lines 77 to 86: either a skip, or [(owner_name, repo_name)]. *)
Definition resolve (repo_url : string) : skip_reason + string * string :=
  if negb (host_matches repo_url) then inl NotGithubLink
  else if (List.length (parts repo_url) <? 2)%nat then inl UnparsableLink
  else match last_two (parts repo_url) with
       | Some on => inr on
       | None => inl UnparsableLink
       end.

Definition repo_full_name (owner_name repo_name : string) : string :=
  (owner_name ++ "/" ++ repo_name)%string.

(** ** What the script does to the outside world *)

Inductive api_call :=
| GetRepo (name : string)             (* g.get_repo(repo_full_name) *)
| GetContributors                     (* repo.get_contributors(), iterated *)
| GetCommitsSince (since : Z)         (* repo.get_commits(since=...).totalCount *)
| GetCommits.                         (* repo.get_commits().totalCount *)

(** The lines printed on the console, one constructor per [print]. *)
Inductive message :=
| MsgInit
| MsgConnected (user : string)
| MsgAuthError (e : exn)
| MsgSkippedLine (line : string)
| MsgLoaded (n : nat)
| MsgInputNotFound
| MsgResume (next_id : Z)
| MsgStateUnreadable
| MsgNoCheckpoint
| MsgStart
| MsgProcessing (pos total : nat) (repo_id : Z) (repo_url : string)
| MsgNotGithub
| MsgUnparsable
| MsgGotRepo (name : string)
| MsgFetched (stars : option Z) (contributors : nat)
| MsgError (error_msg : string)
| MsgDone
| MsgProcessed (processed_count : nat)
| MsgSavedTo
| MsgLastRecorded (repo_id : Z)
| MsgStateRemoved.

Inductive event :=
| Print (m : message)
| ApiCall (c : api_call)
| Sleep (seconds : Z)                 (* time.sleep *)
| Append (r : ResultRecord)           (* one line added to OUTPUT_FILE *)
| SaveState (id : Z)                  (* STATE_FILE overwritten with str(id) *)
| RemoveState.                        (* os.remove(STATE_FILE) *)

(** What [int(f.read().strip())] makes of the state file. *)
Inductive state_content :=
| Unreadable
| LastId (last_id : Z).

(** The two artifacts the script writes. *)
Record files := mkFiles {
  output_file : list ResultRecord;          (* OUTPUT_FILE, line by line *)
  state_file : option state_content         (* STATE_FILE; None: no such file *)
}.

Definition apply_event (fs : files) (e : event) : files :=
  match e with
  | Append r => mkFiles (output_file fs ++ [r]) (state_file fs)
  | SaveState id => mkFiles (output_file fs) (Some (LastId id))
  | RemoveState => mkFiles (output_file fs) None
  | _ => fs
  end.

(** The artifacts after a run has performed the events [tr]. *)
Definition replay (fs : files) (tr : list event) : files :=
  fold_left apply_event tr fs.

(** Everything the script reads. *)
Record world := mkWorld {
  login : result string;                    (* g.get_user().login *)
  input_file : option (list string);        (* lines of INPUT_FILE; None: not found *)
  json_loads : string -> option WorkItem;   (* None: json.JSONDecodeError *)
  disk : files;
  get_repo : string -> result Repository;   (* g.get_repo *)
  now : nat -> Z                            (* datetime.now(), in seconds, at item i *)
}.

(** ** Section 4, the try block: a state monad with exceptions

    The state is the dict [result_data] and the events of the item so far;
    a raised exception leaves the state as the failing statement found it. *)

Definition fetch_state : Type := ResultRecord * list event.
Definition fetchM (A : Type) : Type := fetch_state -> fetch_state * result A.

Definition ret {A} (a : A) : fetchM A := fun st => (st, Ok a).

Definition bind {A B} (m : fetchM A) (k : A -> fetchM B) : fetchM B :=
  fun st => match m st with
            | (st', Ok a) => k a st'
            | (st', Raise e) => (st', Raise e)
            end.

Notation "x <- m ;; k" := (bind m (fun x => k))
  (at level 61, m at next level, right associativity).
Notation "m ;; k" := (bind m (fun _ => k))
  (at level 61, right associativity).

Definition emit (e : event) : fetchM unit :=
  fun '(d, tr) => ((d, tr ++ [e]), Ok tt).

(** A remote call: recorded, then its answer or its exception. *)
Definition call {A} (c : api_call) (answer : result A) : fetchM A :=
  fun '(d, tr) => ((d, tr ++ [ApiCall c]), answer).

Definition sleep (seconds : Z) : fetchM unit := emit (Sleep seconds).
Definition print (m : message) : fetchM unit := emit (Print m).

(** [result_data[key] = v], as a function on the record *)
Definition assign (f : ResultRecord -> ResultRecord) : fetchM unit :=
  fun '(d, tr) => ((f d, tr), Ok tt).

Definition read : fetchM ResultRecord := fun '(d, tr) => ((d, tr), Ok d).

Definition set_stargazers_count v (d : ResultRecord) :=
  mkResult (rr_id d) (rr_link d) (rr_owner d) (rr_repo_name d)
    v (rr_forks_count d) (rr_open_issues_count d) (rr_created_at d)
    (rr_pushed_at d) (rr_contributor_list d) (rr_recent_commits_count d)
    (rr_total_commits_count d) (rr_error d).
Definition set_forks_count v (d : ResultRecord) :=
  mkResult (rr_id d) (rr_link d) (rr_owner d) (rr_repo_name d)
    (rr_stargazers_count d) v (rr_open_issues_count d) (rr_created_at d)
    (rr_pushed_at d) (rr_contributor_list d) (rr_recent_commits_count d)
    (rr_total_commits_count d) (rr_error d).
Definition set_open_issues_count v (d : ResultRecord) :=
  mkResult (rr_id d) (rr_link d) (rr_owner d) (rr_repo_name d)
    (rr_stargazers_count d) (rr_forks_count d) v (rr_created_at d)
    (rr_pushed_at d) (rr_contributor_list d) (rr_recent_commits_count d)
    (rr_total_commits_count d) (rr_error d).
Definition set_created_at v (d : ResultRecord) :=
  mkResult (rr_id d) (rr_link d) (rr_owner d) (rr_repo_name d)
    (rr_stargazers_count d) (rr_forks_count d) (rr_open_issues_count d) v
    (rr_pushed_at d) (rr_contributor_list d) (rr_recent_commits_count d)
    (rr_total_commits_count d) (rr_error d).
Definition set_pushed_at v (d : ResultRecord) :=
  mkResult (rr_id d) (rr_link d) (rr_owner d) (rr_repo_name d)
    (rr_stargazers_count d) (rr_forks_count d) (rr_open_issues_count d)
    (rr_created_at d) v (rr_contributor_list d) (rr_recent_commits_count d)
    (rr_total_commits_count d) (rr_error d).
Definition set_contributor_list v (d : ResultRecord) :=
  mkResult (rr_id d) (rr_link d) (rr_owner d) (rr_repo_name d)
    (rr_stargazers_count d) (rr_forks_count d) (rr_open_issues_count d)
    (rr_created_at d) (rr_pushed_at d) v (rr_recent_commits_count d)
    (rr_total_commits_count d) (rr_error d).
Definition set_recent_commits_count v (d : ResultRecord) :=
  mkResult (rr_id d) (rr_link d) (rr_owner d) (rr_repo_name d)
    (rr_stargazers_count d) (rr_forks_count d) (rr_open_issues_count d)
    (rr_created_at d) (rr_pushed_at d) (rr_contributor_list d) v
    (rr_total_commits_count d) (rr_error d).
Definition set_total_commits_count v (d : ResultRecord) :=
  mkResult (rr_id d) (rr_link d) (rr_owner d) (rr_repo_name d)
    (rr_stargazers_count d) (rr_forks_count d) (rr_open_issues_count d)
    (rr_created_at d) (rr_pushed_at d) (rr_contributor_list d)
    (rr_recent_commits_count d) v (rr_error d).
Definition set_error v (d : ResultRecord) :=
  mkResult (rr_id d) (rr_link d) (rr_owner d) (rr_repo_name d)
    (rr_stargazers_count d) (rr_forks_count d) (rr_open_issues_count d)
    (rr_created_at d) (rr_pushed_at d) (rr_contributor_list d)
    (rr_recent_commits_count d) (rr_total_commits_count d) v.

(** Lines 90 to 104: the record before anything is fetched. *)
Definition result_data (repo_id : Z) (repo_url owner_name repo_name : string)
  : ResultRecord :=
  mkResult repo_id repo_url owner_name repo_name
    None None None None None [] None None None.

(** [timedelta(days=30)], in seconds *)
Definition thirty_days : Z := 30 * 86400.

(** Lines 107 to 136, the body of [try]. *)
Definition try_block (g : string -> result Repository) (now : Z)
    (name : string) : fetchM unit :=
  repo <- call (GetRepo name) (g name) ;;
  print (MsgGotRepo (full_name repo)) ;;
  (* 1. basic information *)
  assign (set_stargazers_count (Some (stargazers_count repo))) ;;
  assign (set_forks_count (Some (forks_count repo))) ;;
  assign (set_open_issues_count (Some (open_issues_count repo))) ;;
  assign (set_created_at (created_at repo)) ;;
  assign (set_pushed_at (pushed_at repo)) ;;
  sleep 1 ;;
  (* 2. contributors *)
  contributors <- call GetContributors (get_contributors repo) ;;
  assign (set_contributor_list contributors) ;;
  sleep 1 ;;
  (* 3. commit history *)
  let last_month_date := (now - thirty_days)%Z in
  recent_commits <- call (GetCommitsSince last_month_date)
                         (get_commits_since repo last_month_date) ;;
  assign (set_recent_commits_count (Some recent_commits)) ;;
  sleep 1 ;;
  total_commits <- call GetCommits (get_commits repo) ;;
  assign (set_total_commits_count (Some total_commits)) ;;
  sleep 1 ;;
  d <- read ;;
  print (MsgFetched (rr_stargazers_count d)
                    (List.length (rr_contributor_list d))).

(** Lines 139 and 143: the text stored under "error". *)
Definition error_msg (e : exn) : string :=
  match e with
  | GithubException status message =>
      ("GitHub API 错误: " ++ PyStr.str_int status ++ " - " ++
       match message with Some m => m | None => "No message" end)%string
  | OtherException text => ("未知错误: " ++ text)%string
  end.

(** Lines 106 to 145: [try] with its two handlers, in front of
    exceptions the handlers can format; [Raw.fetch] below is the same
    statement in front of any exception. *)
Definition fetch (g : string -> result Repository) (now : Z)
    (name : string) (st : fetch_state) : fetch_state :=
  match try_block g now name st with
  | (st', Ok _) => st'
  | ((d, tr), Raise e) =>
      (set_error (Some (error_msg e)) d, tr ++ [Print (MsgError (error_msg e))])
  end.

(** ** Section 3: loading the work list and the resume offset *)

(** Lines 38 to 43: one line of the input file. *)
Definition load_line (loads : string -> option WorkItem)
    (acc : list WorkItem * list event) (line : string)
  : list WorkItem * list event :=
  let stripped := PyStr.strip_space line in
  match loads stripped with
  | Some data => (fst acc ++ [data], snd acc)
  | None => (fst acc, snd acc ++ [Print (MsgSkippedLine stripped)])
  end.

(** Lines 35 to 47: [None] stands for [FileNotFoundError]. *)
Definition repos_to_crawl (w : world) : option (list WorkItem * list event) :=
  match input_file w with
  | None => None
  | Some lines => Some (fold_left (load_line (json_loads w)) lines ([], []))
  end.

(** Lines 55 to 58: the scan with its [break]. *)
Fixpoint scan (last_id : Z) (i : nat) (repos : list WorkItem)
    (start_index : nat) : nat :=
  match repos with
  | [] => start_index
  | repo_info :: rest =>
      if (item_id repo_info =? last_id)%Z then i + 1
      else scan last_id (S i) rest start_index
  end.

(** Lines 49 to 63. *)
Definition start_index (repos : list WorkItem) (sf : option state_content)
  : nat * list event :=
  match sf with
  | None => (0, [Print MsgNoCheckpoint])
  | Some Unreadable => (0, [Print MsgStateUnreadable])
  | Some (LastId last_id) =>
      (scan last_id 0 repos 0, [Print (MsgResume (last_id + 1))])
  end.

(** ** Section 4 and 5: the sweep *)

(** The variables that outlive one iteration: the counter, [repo_id]
    (unbound until the first iteration assigns it) and the events so far. *)
Record loop_state := mkLoop {
  processed_count : nat;
  repo_id : option Z;
  log : list event
}.

(** Lines 70 to 158 for one item: whether it was counted as processed, and
    what it did. *)
Definition item_events (w : world) (total i : nat) (repo_info : WorkItem)
  : bool * list event :=
  let id := item_id repo_info in
  let repo_url := github_link repo_info in
  let header := Print (MsgProcessing (i + 1) total id repo_url) in
  match resolve repo_url with
  | inl NotGithubLink => (false, [header; Print MsgNotGithub])       (* continue *)
  | inl UnparsableLink => (false, [header; Print MsgUnparsable])     (* continue *)
  | inr (owner_name, repo_name) =>
      let '(d, tr) :=
        fetch (get_repo w) (now w i) (repo_full_name owner_name repo_name)
              (result_data id repo_url owner_name repo_name, []) in
      (true, header :: tr ++ [Append d; SaveState id])
  end.

Definition loop_body (w : world) (total : nat) (st : loop_state)
    (i : nat) (repo_info : WorkItem) : loop_state :=
  let '(counted, tr) := item_events w total i repo_info in
  mkLoop (if counted then processed_count st + 1 else processed_count st)
         (Some (item_id repo_info))
         (log st ++ tr).

(** [range(a, b)] *)
Definition range (a b : nat) : list nat := seq a (b - a).

(** Line 69: [for i in range(start_index, len(repos_to_crawl))]. *)
Definition main_loop (w : world) (repos : list WorkItem) (start : nat)
    (st : loop_state) : loop_state :=
  fold_left
    (fun st i =>
       match nth_error repos i with
       | Some repo_info => loop_body w (List.length repos) st i repo_info
       | None => st              (* IndexError: i < len(repos) rules it out *)
       end)
    (range start (List.length repos)) st.

(** ** The whole script *)

Inductive pyerror :=
| NameError (name : string)
| FileNotFoundError (path : string)
| AttributeError (attribute : string).

(** How the process ends: falling off the end of the script, [sys.exit()]
    with no argument, or an exception nobody catches. *)
Inductive outcome :=
| Finished
| SysExit
| Uncaught (e : pyerror).

(** The exit status the interpreter reports: [sys.exit()] without an
    argument is status 0, a traceback is status 1. *)
Definition exit_status (o : outcome) : Z :=
  match o with
  | Finished => 0
  | SysExit => 0
  | Uncaught _ => 1
  end.

Record run := mkRun {
  events : list event;
  ending : outcome
}.

(** Lines 160 to 170. *)
Definition finish (w : world) (repos : list WorkItem) (start : nat)
    (st : loop_state) : run :=
  let tr := log st ++ [Print MsgDone; Print (MsgProcessed (processed_count st));
                       Print MsgSavedTo] in
  match repo_id st with
  | None => mkRun tr (Uncaught (NameError "repo_id"))
  | Some id =>
      let tr := tr ++ [Print (MsgLastRecorded id)] in
      if (List.length repos <=? start + processed_count st)%nat then
        match state_file (replay (disk w) tr) with
        | None => mkRun tr (Uncaught (FileNotFoundError "last_processed_id.txt"))
        | Some _ => mkRun (tr ++ [RemoveState; Print MsgStateRemoved]) Finished
        end
      else mkRun tr Finished
  end.

Definition main (w : world) : run :=
  match login w with
  | Raise e => mkRun [Print MsgInit; Print (MsgAuthError e)] SysExit
  | Ok user =>
      let tr := [Print MsgInit; Print (MsgConnected user)] in
      match repos_to_crawl w with
      | None => mkRun (tr ++ [Print MsgInputNotFound]) SysExit
      | Some (repos, warnings) =>
          let tr := tr ++ warnings ++ [Print (MsgLoaded (List.length repos))] in
          let '(start, resume_log) := start_index repos (state_file (disk w)) in
          let tr := tr ++ resume_log ++ [Print MsgStart] in
          finish w repos start (main_loop w repos start (mkLoop 0 None tr))
      end
  end.

(** The artifacts a run leaves behind. *)
Definition final_files (w : world) : files :=
  replay (disk w) (events (main w)).

(** The wording of the specification for a link that cannot be resolved:
    the path of a URL-shaped reference is what follows its host, and it
    splits into exactly an owner and a name when it has exactly two
    non-empty segments. *)
Module SpecResolver.

Fixpoint after_host (segments : list string) : list string :=
  match segments with
  | [] => []
  | s :: rest =>
      if PyStr.contains "github.com" s then rest else after_host rest
  end.

Definition path_segments (reference : string) : list string :=
  filter (fun s => negb (String.eqb s ""))
         (after_host (PyStr.split "/"%char reference)).

Definition splits_into_owner_and_name (reference : string) : bool :=
  (List.length (path_segments reference) =? 2)%nat.

End SpecResolver.

(** ** Vocabulary for the statements *)

(** The sweep as a recursion over the items still to do, [i] being the
    index of the first of them. *)
Fixpoint sweep (w : world) (total i : nat) (todo : list WorkItem)
    (st : loop_state) : loop_state :=
  match todo with
  | [] => st
  | repo_info :: rest =>
      sweep w total (S i) rest (loop_body w total st i repo_info)
  end.

Fixpoint sweep_events (w : world) (total i : nat) (todo : list WorkItem)
  : list event :=
  match todo with
  | [] => []
  | repo_info :: rest =>
      snd (item_events w total i repo_info) ++ sweep_events w total (S i) rest
  end.

(** How many of the items the sweep counts as processed. *)
Fixpoint counted (todo : list WorkItem) : nat :=
  match todo with
  | [] => 0
  | repo_info :: rest =>
      match resolve (github_link repo_info) with
      | inl _ => counted rest
      | inr _ => S (counted rest)
      end
  end.

(** The items dispatched, with their index in the work list, read off
    line 74's progress lines (which print the index plus one). *)
Fixpoint dispatched (tr : list event) : list (nat * WorkItem) :=
  match tr with
  | [] => []
  | Print (MsgProcessing pos _ id url) :: tr' =>
      (pos - 1, mkWorkItem id url) :: dispatched tr'
  | _ :: tr' => dispatched tr'
  end.

(** [enumerate(l, i)] *)
Fixpoint enumerate (i : nat) (l : list WorkItem) : list (nat * WorkItem) :=
  match l with
  | [] => []
  | x :: l' => (i, x) :: enumerate (S i) l'
  end.

(** The records appended, the remote calls made and the checkpoints saved. *)
Fixpoint appended (tr : list event) : list ResultRecord :=
  match tr with
  | [] => []
  | Append r :: tr' => r :: appended tr'
  | _ :: tr' => appended tr'
  end.

Fixpoint calls (tr : list event) : list api_call :=
  match tr with
  | [] => []
  | ApiCall c :: tr' => c :: calls tr'
  | _ :: tr' => calls tr'
  end.

Fixpoint saved (tr : list event) : list Z :=
  match tr with
  | [] => []
  | SaveState id :: tr' => id :: saved tr'
  | _ :: tr' => saved tr'
  end.

(** Events that neither announce an item nor touch the two artifacts. *)
Definition silent (e : event) : bool :=
  match e with
  | Print (MsgProcessing _ _ _ _) | Append _ | SaveState _ | RemoveState => false
  | _ => true
  end.


(** Every append is followed at once by the save of the same id, and no
    save occurs otherwise. *)
Fixpoint well_paired (tr : list event) : bool :=
  match tr with
  | [] => true
  | Append r :: SaveState id :: tr' => (rr_id r =? id)%Z && well_paired tr'
  | Append _ :: _ => false
  | SaveState _ :: _ => false
  | _ :: tr' => well_paired tr'
  end.

(** The four requests of one item, in the order of the script. *)
Definition all_calls (name : string) (now : Z) : list api_call :=
  [GetRepo name; GetContributors; GetCommitsSince (now - thirty_days); GetCommits].


(** The first of the four requests that raises, numbered from 1, with what
    it raises. *)
Definition first_failure (g : string -> result Repository) (now : Z)
    (name : string) : option (nat * exn) :=
  match g name with
  | Raise e => Some (1, e)
  | Ok repo =>
      match get_contributors repo with
      | Raise e => Some (2, e)
      | Ok _ =>
          match get_commits_since repo (now - thirty_days) with
          | Raise e => Some (3, e)
          | Ok _ =>
              match get_commits repo with
              | Raise e => Some (4, e)
              | Ok _ => None
              end
          end
      end
  end.

(** Events after the sweep: silent ones and the removal of the state file. *)
Definition closing (e : event) : bool :=
  match e with
  | RemoveState => true
  | _ => silent e
  end.

(** The lines of the input file that parse, as the items they hold, and the
    ones that do not, as they are reported (stripped), both in input order. *)
Definition parseable (loads : string -> option WorkItem) (lines : list string)
  : list WorkItem :=
  flat_map (fun line =>
              match loads (PyStr.strip_space line) with
              | Some data => [data]
              | None => []
              end) lines.

Definition unparseable (loads : string -> option WorkItem) (lines : list string)
  : list string :=
  flat_map (fun line =>
              match loads (PyStr.strip_space line) with
              | Some _ => []
              | None => [PyStr.strip_space line]
              end) lines.

(** The state file after a sweep of [todo]: the id of the last item that
    was counted, or what it was before when none was. *)
Fixpoint last_counted (todo : list WorkItem) (sf : option state_content)
  : option state_content :=
  match todo with
  | [] => sf
  | repo_info :: rest =>
      match resolve (github_link repo_info) with
      | inl _ => last_counted rest sf
      | inr _ => last_counted rest (Some (LastId (item_id repo_info)))
      end
  end.

(** The fields of a record when request number [k] of its fetch raised:
    those of the requests before [k] hold what was fetched, those of
    request [k] and of the later ones still hold their defaults. *)
Definition fetched_up_to (g : string -> result Repository) (now : Z)
    (name : string) (k : nat) (r : ResultRecord) : Prop :=
  (k = 1 ->
     rr_stargazers_count r = None /\ rr_forks_count r = None /\
     rr_open_issues_count r = None /\ rr_created_at r = None /\
     rr_pushed_at r = None) /\
  (1 < k ->
     exists repo,
       g name = Ok repo /\
       rr_stargazers_count r = Some (stargazers_count repo) /\
       rr_forks_count r = Some (forks_count repo) /\
       rr_open_issues_count r = Some (open_issues_count repo) /\
       rr_created_at r = created_at repo /\
       rr_pushed_at r = pushed_at repo) /\
  (k <= 2 -> rr_contributor_list r = []) /\
  (2 < k ->
     exists repo,
       g name = Ok repo /\ get_contributors repo = Ok (rr_contributor_list r)) /\
  (k <= 3 -> rr_recent_commits_count r = None) /\
  (3 < k ->
     exists repo n,
       g name = Ok repo /\
       get_commits_since repo (now - thirty_days)%Z = Ok n /\
       rr_recent_commits_count r = Some n) /\
  rr_total_commits_count r = None /\
  1 <= k <= 4.

(** The work list a run loads (empty when the input file is missing). *)
Definition loaded (w : world) : list WorkItem :=
  match repos_to_crawl w with
  | Some (repos, _) => repos
  | None => []
  end.

(** The offset the sweep of a run starts from. *)
Definition offset (w : world) : nat :=
  fst (start_index (loaded w) (state_file (disk w))).



(** ** Concrete worlds *)

Module Scenario.

Definition widget : Repository :=
  mkRepository "acme/widget" 42 7 3
    (Some "2020-01-01T00:00:00+00:00") (Some "2024-05-01T12:00:00+00:00")
    (Ok [("alice", 120%Z); ("bob", 4%Z)]) (fun _ => Ok 9%Z) (Ok 250%Z).

(** The same repository when the contributor listing is refused. *)
Definition widget_limited : Repository :=
  mkRepository "acme/widget" 42 7 3
    (Some "2020-01-01T00:00:00+00:00") (Some "2024-05-01T12:00:00+00:00")
    (Raise (GithubException 403 (Some "API rate limit exceeded")))
    (fun _ => Ok 9%Z) (Ok 250%Z).

Definition item1 : WorkItem := mkWorkItem 1 "https://github.com/acme/widget".
Definition item2 : WorkItem := mkWorkItem 2 "not-a-url".
Definition item3 : WorkItem := mkWorkItem 3 "https://github.com/acme/gadget".

(** A stand-in for [json.loads] on the lines of these datasets. *)
Definition loads (line : string) : option WorkItem :=
  if String.eqb line "{1: https://github.com/acme/widget}" then Some item1
  else if String.eqb line "{2: not-a-url}" then Some item2
  else if String.eqb line "{3: https://github.com/acme/gadget}" then Some item3
  else None.

Definition github (name : string) : result Repository :=
  if String.eqb name "acme/widget" then Ok widget
  else Raise (GithubException 404 (Some "Not Found")).

Definition github_limited (name : string) : result Repository :=
  if String.eqb name "acme/widget" then Ok widget_limited
  else Raise (OtherException "timed out").

Definition clock (i : nat) : Z := 1700000000 + Z.of_nat i.

(** The two-line dataset of the specification's scenario, first run. *)
Definition two_items : world :=
  mkWorld (Ok "crawler")
    (Some ["{1: https://github.com/acme/widget}"; "{2: not-a-url}"])
    loads (mkFiles [] None) github clock.

(** Three lines with a broken one in between, resumed after item 1. *)
Definition resumed : world :=
  mkWorld (Ok "crawler")
    (Some ["{1: https://github.com/acme/widget}"; "{2: not-a-url";
           "{3: https://github.com/acme/gadget}"])
    loads
    (mkFiles [result_data 1 "https://github.com/acme/widget" "acme" "widget"]
             (Some (LastId 1)))
    github_limited clock.

(** A token that does not authenticate. *)
Definition bad_token : world :=
  mkWorld (Raise (GithubException 401 (Some "Bad credentials")))
    (Some ["{1: https://github.com/acme/widget}"])
    loads (mkFiles [] None) github clock.

(** No input file. *)
Definition no_input : world :=
  mkWorld (Ok "crawler") None loads (mkFiles [] None) github clock.

(** An input file with no line in it. *)
Definition empty_input : world :=
  mkWorld (Ok "crawler") (Some []) loads (mkFiles [] None) github clock.

(** A checkpoint left on the last item of the list. *)
Definition checkpoint_on_last : world :=
  mkWorld (Ok "crawler")
    (Some ["{1: https://github.com/acme/widget}"])
    loads
    (mkFiles [result_data 1 "https://github.com/acme/widget" "acme" "widget"]
             (Some (LastId 1)))
    github clock.

End Scenario.

(** ** Restarting a run *)



(** The same world in front of another API and another clock. *)
Definition with_api (w : world) (g : string -> result Repository)
    (clock : nat -> Z) : world :=
  mkWorld (login w) (input_file w) (json_loads w) (disk w) g clock.

(** Whether a link resolves. *)
Definition resolves (repo_info : WorkItem) : bool :=
  match resolve (github_link repo_info) with
  | inl _ => false
  | inr _ => true
  end.

(** A record all of whose requests succeeded on [repo]. *)
Definition fully_fetched (repo : Repository) (since : Z) (r : ResultRecord)
  : Prop :=
  rr_stargazers_count r = Some (stargazers_count repo) /\
  rr_forks_count r = Some (forks_count repo) /\
  rr_open_issues_count r = Some (open_issues_count repo) /\
  rr_created_at r = created_at repo /\
  rr_pushed_at r = pushed_at repo /\
  get_contributors repo = Ok (rr_contributor_list r) /\
  (exists n, get_commits_since repo since = Ok n /\
             rr_recent_commits_count r = Some n) /\
  (exists n, get_commits repo = Ok n /\ rr_total_commits_count r = Some n) /\
  rr_error r = None.

(** * The crawler in front of any answer of the API

    The definitions above take a [GithubException] with the "message" of
    its data, which is all the handler of line 139 reads when the data is
    a dict.  The data is whatever the body of the response parsed to, and
    it is [None] for an empty body: [e.data.get] then raises
    [AttributeError] inside the handler, nothing catches it, and the
    process ends there.  [Raw] is the script over such answers as well;
    [tame] maps its worlds to the worlds above, and the two runs are the
    same up to the first item whose handler raises. *)

Module Raw.

(** [e.data] of a [GithubException]: a dict, with or without a "message",
    or anything else ([None], a string). *)
Inductive data :=
| Dict (message : option string)
| NotDict.

Inductive raised :=
| RaisedGithub (status : Z) (payload : data)
| RaisedOther (text : string).

Inductive answer (A : Type) :=
| Answer (a : A)
| Raises (e : raised).
Arguments Answer {A} a.
Arguments Raises {A} e.

Record Repository := mkRepository {
  full_name : string;
  stargazers_count : Z;
  forks_count : Z;
  open_issues_count : Z;
  created_at : option string;
  pushed_at : option string;
  get_contributors : answer (list (string * Z));
  get_commits_since : Z -> answer Z;
  get_commits : answer Z
}.

Record world := mkWorld {
  login : answer string;
  input_file : option (list string);
  json_loads : string -> option WorkItem;
  disk : files;
  get_repo : string -> answer Repository;
  now : nat -> Z
}.

(** The exception as the handlers see it when they can format it; a
    [GithubException] whose data is not a dict has no "message" to show. *)
Definition shown (e : raised) : exn :=
  match e with
  | RaisedGithub status (Dict message) => GithubException status message
  | RaisedGithub status NotDict => GithubException status None
  | RaisedOther text => OtherException text
  end.

(** The try block, as above, over these answers. *)
Definition fetchM (A : Type) : Type := fetch_state -> fetch_state * answer A.

Definition ret {A} (a : A) : fetchM A := fun st => (st, Answer a).

Definition bind {A B} (m : fetchM A) (k : A -> fetchM B) : fetchM B :=
  fun st => match m st with
            | (st', Answer a) => k a st'
            | (st', Raises e) => (st', Raises e)
            end.

Notation "x <~ m ;; k" := (bind m (fun x => k))
  (at level 61, m at next level, right associativity).
Notation "m ;;; k" := (bind m (fun _ => k))
  (at level 61, right associativity).

Definition emit (e : event) : fetchM unit :=
  fun '(d, tr) => ((d, tr ++ [e]), Answer tt).

Definition call {A} (c : api_call) (answer : answer A) : fetchM A :=
  fun '(d, tr) => ((d, tr ++ [ApiCall c]), answer).

Definition sleep (seconds : Z) : fetchM unit := emit (Sleep seconds).
Definition print (m : message) : fetchM unit := emit (Print m).

Definition assign (f : ResultRecord -> ResultRecord) : fetchM unit :=
  fun '(d, tr) => ((f d, tr), Answer tt).

Definition read : fetchM ResultRecord := fun '(d, tr) => ((d, tr), Answer d).

(** Lines 107 to 136, the body of [try]. *)
Definition try_block (g : string -> answer Repository) (now : Z)
    (name : string) : fetchM unit :=
  repo <~ call (GetRepo name) (g name) ;;
  print (MsgGotRepo (full_name repo)) ;;;
  assign (set_stargazers_count (Some (stargazers_count repo))) ;;;
  assign (set_forks_count (Some (forks_count repo))) ;;;
  assign (set_open_issues_count (Some (open_issues_count repo))) ;;;
  assign (set_created_at (created_at repo)) ;;;
  assign (set_pushed_at (pushed_at repo)) ;;;
  sleep 1 ;;;
  contributors <~ call GetContributors (get_contributors repo) ;;
  assign (set_contributor_list contributors) ;;;
  sleep 1 ;;;
  let last_month_date := (now - thirty_days)%Z in
  recent_commits <~ call (GetCommitsSince last_month_date)
                         (get_commits_since repo last_month_date) ;;
  assign (set_recent_commits_count (Some recent_commits)) ;;;
  sleep 1 ;;;
  total_commits <~ call GetCommits (get_commits repo) ;;
  assign (set_total_commits_count (Some total_commits)) ;;;
  sleep 1 ;;;
  d <~ read ;;
  print (MsgFetched (rr_stargazers_count d)
                    (List.length (rr_contributor_list d))).

(** Lines 106 to 145: [try] with its two handlers.  The first handler
    reads [e.data.get('message', ...)]: on data that is not a dict this
    raises [AttributeError] before anything is stored or printed, and the
    exception leaves the [try] statement. *)
Definition fetch (g : string -> answer Repository) (now : Z)
    (name : string) (st : fetch_state) : fetch_state * option pyerror :=
  match try_block g now name st with
  | (st', Answer _) => (st', None)
  | ((d, tr), Raises (RaisedGithub status (Dict message))) =>
      let error_msg := error_msg (GithubException status message) in
      ((set_error (Some error_msg) d, tr ++ [Print (MsgError error_msg)]), None)
  | ((d, tr), Raises (RaisedGithub status NotDict)) =>
      ((d, tr), Some (AttributeError "get"))
  | ((d, tr), Raises (RaisedOther text)) =>
      let error_msg := error_msg (OtherException text) in
      ((set_error (Some error_msg) d, tr ++ [Print (MsgError error_msg)]), None)
  end.

(** Lines 35 to 47. *)
Definition repos_to_crawl (w : world) : option (list WorkItem * list event) :=
  match input_file w with
  | None => None
  | Some lines => Some (fold_left (load_line (json_loads w)) lines ([], []))
  end.

(** Lines 70 to 158 for one item: whether it was counted as processed,
    what it did, and the exception that left the iteration, if one did. *)
Definition item_events (w : world) (total i : nat) (repo_info : WorkItem)
  : bool * list event * option pyerror :=
  let id := item_id repo_info in
  let repo_url := github_link repo_info in
  let header := Print (MsgProcessing (i + 1) total id repo_url) in
  match resolve repo_url with
  | inl NotGithubLink => (false, [header; Print MsgNotGithub], None)
  | inl UnparsableLink => (false, [header; Print MsgUnparsable], None)
  | inr (owner_name, repo_name) =>
      match fetch (get_repo w) (now w i) (repo_full_name owner_name repo_name)
                  (result_data id repo_url owner_name repo_name, []) with
      | ((d, tr), None) => (true, header :: tr ++ [Append d; SaveState id], None)
      | ((d, tr), Some e) => (false, header :: tr, Some e)
      end
  end.

(** One iteration; after an exception there is no further iteration. *)
Definition loop_body (w : world) (total : nat)
    (st : loop_state * option pyerror) (i : nat) (repo_info : WorkItem)
  : loop_state * option pyerror :=
  match st with
  | (_, Some _) => st
  | (st, None) =>
      let '(counted, tr, e) := item_events w total i repo_info in
      (mkLoop (if counted then processed_count st + 1 else processed_count st)
              (Some (item_id repo_info))
              (log st ++ tr),
       e)
  end.

(** Line 69. *)
Definition main_loop (w : world) (repos : list WorkItem) (start : nat)
    (st : loop_state * option pyerror) : loop_state * option pyerror :=
  fold_left
    (fun st i =>
       match nth_error repos i with
       | Some repo_info => loop_body w (List.length repos) st i repo_info
       | None => st
       end)
    (range start (List.length repos)) st.

(** Lines 160 to 170. *)
Definition finish (w : world) (repos : list WorkItem) (start : nat)
    (st : loop_state) : run :=
  let tr := log st ++ [Print MsgDone; Print (MsgProcessed (processed_count st));
                       Print MsgSavedTo] in
  match repo_id st with
  | None => mkRun tr (Uncaught (NameError "repo_id"))
  | Some id =>
      let tr := tr ++ [Print (MsgLastRecorded id)] in
      if (List.length repos <=? start + processed_count st)%nat then
        match state_file (replay (disk w) tr) with
        | None => mkRun tr (Uncaught (FileNotFoundError "last_processed_id.txt"))
        | Some _ => mkRun (tr ++ [RemoveState; Print MsgStateRemoved]) Finished
        end
      else mkRun tr Finished
  end.

(** The whole script. *)
Definition main (w : world) : run :=
  match login w with
  | Raises e => mkRun [Print MsgInit; Print (MsgAuthError (shown e))] SysExit
  | Answer user =>
      let tr := [Print MsgInit; Print (MsgConnected user)] in
      match repos_to_crawl w with
      | None => mkRun (tr ++ [Print MsgInputNotFound]) SysExit
      | Some (repos, warnings) =>
          let tr := tr ++ warnings ++ [Print (MsgLoaded (List.length repos))] in
          let '(start, resume_log) := start_index repos (state_file (disk w)) in
          let tr := tr ++ resume_log ++ [Print MsgStart] in
          match main_loop w repos start (mkLoop 0 None tr, None) with
          | (st, Some e) => mkRun (log st) (Uncaught e)
          | (st, None) => finish w repos start st
          end
      end
  end.

Definition final_files (w : world) : files :=
  replay (disk w) (events (main w)).

(** The first of the four requests that raises, numbered from 1. *)
Definition first_failure (g : string -> answer Repository) (now : Z)
    (name : string) : option (nat * raised) :=
  match g name with
  | Raises e => Some (1, e)
  | Answer repo =>
      match get_contributors repo with
      | Raises e => Some (2, e)
      | Answer _ =>
          match get_commits_since repo (now - thirty_days) with
          | Raises e => Some (3, e)
          | Answer _ =>
              match get_commits repo with
              | Raises e => Some (4, e)
              | Answer _ => None
              end
          end
      end
  end.

(** An exception the handler of line 139 cannot format. *)
Definition unformatted (e : raised) : bool :=
  match e with
  | RaisedGithub _ NotDict => true
  | _ => false
  end.

(** Whether the handler of a fetch raises. *)
Definition fetch_raises (g : string -> answer Repository) (now : Z)
    (name : string) : bool :=
  match first_failure g now name with
  | Some (_, e) => unformatted e
  | None => false
  end.

(** Whether the handler of the item at index [i] raises: its link
    resolves and the first request of its fetch that fails raises a
    [GithubException] whose data is not a dict. *)
Definition handler_raises (w : world) (i : nat) (repo_info : WorkItem) : bool :=
  match resolve (github_link repo_info) with
  | inl _ => false
  | inr (owner_name, repo_name) =>
      fetch_raises (get_repo w) (now w i) (repo_full_name owner_name repo_name)
  end.

(** No item of [todo], the first of them at index [i], has a handler that
    raises. *)
Fixpoint handlers_return (w : world) (i : nat) (todo : list WorkItem) : bool :=
  match todo with
  | [] => true
  | repo_info :: rest =>
      negb (handler_raises w i repo_info) && handlers_return w (S i) rest
  end.

(** The items of [todo] the sweep gets through: the ones before the first
    item whose handler raises. *)
Fixpoint completed (w : world) (i : nat) (todo : list WorkItem)
  : list WorkItem :=
  match todo with
  | [] => []
  | repo_info :: rest =>
      if handler_raises w i repo_info then []
      else repo_info :: completed w (S i) rest
  end.

(** The items the sweep starts on: those, and the item whose handler
    raises, if there is one. *)
Fixpoint started (w : world) (i : nat) (todo : list WorkItem)
  : list WorkItem :=
  match todo with
  | [] => []
  | repo_info :: rest =>
      if handler_raises w i repo_info then [repo_info]
      else repo_info :: started w (S i) rest
  end.

(** The sweep as a recursion over the items still to do. *)
Fixpoint sweep (w : world) (total i : nat) (todo : list WorkItem)
    (st : loop_state * option pyerror) : loop_state * option pyerror :=
  match todo with
  | [] => st
  | repo_info :: rest =>
      sweep w total (S i) rest (loop_body w total st i repo_info)
  end.

(** The same world in front of another API and another clock. *)
Definition with_api (w : world) (g : string -> answer Repository)
    (clock : nat -> Z) : world :=
  mkWorld (login w) (input_file w) (json_loads w) (disk w) g clock.

End Raw.

(** ** From any answer to an answer the handlers can format *)

Definition tame_answer {A B : Type} (f : A -> B) (a : Raw.answer A) : result B :=
  match a with
  | Raw.Answer x => Ok (f x)
  | Raw.Raises e => Raise (Raw.shown e)
  end.

Definition tame_repo (r : Raw.Repository) : Repository :=
  mkRepository (Raw.full_name r) (Raw.stargazers_count r) (Raw.forks_count r)
    (Raw.open_issues_count r) (Raw.created_at r) (Raw.pushed_at r)
    (tame_answer (fun x => x) (Raw.get_contributors r))
    (fun since => tame_answer (fun x => x) (Raw.get_commits_since r since))
    (tame_answer (fun x => x) (Raw.get_commits r)).

(** The world in which every [GithubException] carries a dict. *)
Definition tame (w : Raw.world) : world :=
  mkWorld (tame_answer (fun x => x) (Raw.login w)) (Raw.input_file w)
    (Raw.json_loads w) (Raw.disk w)
    (fun name => tame_answer tame_repo (Raw.get_repo w name)) (Raw.now w).

(** The items a run is to sweep: the work list from the offset on. *)
Definition todo (w : Raw.world) : list WorkItem :=
  skipn (offset (tame w)) (loaded (tame w)).

(** ** Concrete worlds with an empty error body *)

Module RawScenario.

Definition widget : Raw.Repository :=
  Raw.mkRepository "acme/widget" 42 7 3
    (Some "2020-01-01T00:00:00+00:00") (Some "2024-05-01T12:00:00+00:00")
    (Raw.Answer [("alice", 120%Z); ("bob", 4%Z)])
    (fun _ => Raw.Answer 9%Z) (Raw.Answer 250%Z).

(** A gateway error with an empty body for every repository. *)
Definition bad_gateway (name : string) : Raw.answer Raw.Repository :=
  Raw.Raises (Raw.RaisedGithub 502 Raw.NotDict).

(** The widget is served, any other repository is a 404 with a body. *)
Definition github (name : string) : Raw.answer Raw.Repository :=
  if String.eqb name "acme/widget" then Raw.Answer widget
  else Raw.Raises (Raw.RaisedGithub 404 (Raw.Dict (Some "Not Found"))).

(** Two resolvable items, first run, every request answered by an error
    with an empty body. *)
Definition empty_body : Raw.world :=
  Raw.mkWorld (Raw.Answer "crawler")
    (Some ["{1: https://github.com/acme/widget}";
           "{3: https://github.com/acme/gadget}"])
    Scenario.loads (mkFiles [] None) bad_gateway Scenario.clock.

(** The same two items in front of an API whose errors have a body. *)
Definition with_body : Raw.world :=
  Raw.mkWorld (Raw.Answer "crawler")
    (Some ["{1: https://github.com/acme/widget}";
           "{3: https://github.com/acme/gadget}"])
    Scenario.loads (mkFiles [] None) github Scenario.clock.

(** A token that does not authenticate. *)
Definition bad_token : Raw.world :=
  Raw.mkWorld (Raw.Raises (Raw.RaisedGithub 401 (Raw.Dict (Some "Bad credentials"))))
    (Some ["{1: https://github.com/acme/widget}"])
    Scenario.loads (mkFiles [] None) github Scenario.clock.

(** No input file. *)
Definition no_input : Raw.world :=
  Raw.mkWorld (Raw.Answer "crawler") None
    Scenario.loads (mkFiles [] None) github Scenario.clock.

End RawScenario.

(** * The JOSS scraper (代码/爬取joss已出版论文信息.py): numbering *)

Module Joss.

(** Line 58: the "总序号" of the paper at position [idx] of a page. *)
Definition total_idx (current_page idx : Z) : Z :=
  ((current_page - 1) * 20 + (idx + 1))%Z.

(** Lines 56 to 158 for one page showing [count] cards: the ids of the
    records the page adds to [all_papers]; [extracted idx] tells whether
    the paper at position [idx] got as far as line 147 (its card was still
    there and opening its page raised nothing). *)
Definition page_ids (current_page : Z) (count : nat) (extracted : nat -> bool)
  : list Z :=
  map (fun idx => total_idx current_page (Z.of_nat idx))
      (filter extracted (range 0 (Nat.min 20 count))).

(** The pages visited one after the other, from [current_page] on. *)
Fixpoint scrape_ids (current_page : Z) (pages : list (nat * (nat -> bool)))
  : list Z :=
  match pages with
  | [] => []
  | (count, extracted) :: rest =>
      page_ids current_page count extracted
      ++ scrape_ids (current_page + 1) rest
  end.

End Joss.

(** * The report generator (代码/学术开源项目分析网站生成.py): loading *)

Module Report.

(** What [pd.read_json(file_path, lines=True, encoding=...)] does. *)
Inductive read_json_result (DF : Type) :=
| Loaded (df : DF)
| UnicodeDecodeError
| OtherError (e : string).
Arguments Loaded {DF} df.
Arguments UnicodeDecodeError {DF}.
Arguments OtherError {DF} e.

Inductive returned (A : Type) :=
| Return (a : A)
| Reraise (e : string).
Arguments Return {A} a.
Arguments Reraise {A} e.

Inductive log_line :=
| LogLoaded (encoding : string)         (* INFO *)
| LogReadFailed (e : string)            (* ERROR, before re-raising *)
| LogNoEncoding.                        (* ERROR, before returning None *)

(** [DataProcessor.safe_read_jsonl], lines 85 to 100: the encodings it
    tried, what it logged, and what it returned or raised. *)
Fixpoint safe_read_jsonl {DF : Type}
    (read_json : string -> read_json_result DF)
    (encoding_list : list string)
  : list string * list log_line * returned (option DF) :=
  match encoding_list with
  | [] => ([], [LogNoEncoding], Return None)
  | encoding :: rest =>
      match read_json encoding with
      | Loaded df => ([encoding], [LogLoaded encoding], Return (Some df))
      | UnicodeDecodeError =>
          let '(tried, logs, res) := safe_read_jsonl read_json rest in
          (encoding :: tried, logs, res)
      | OtherError e => ([encoding], [LogReadFailed e], Reraise e)
      end
  end.

(** A data frame: its column labels and its rows, a row giving for a
    label its cell, [None] when the cell is null (None, NaN or NaT).  A
    label that occurs more than once in [columns] stands for as many
    columns holding the same cells. *)
Record DataFrame (cell : Type) := mkDataFrame {
  columns : list string;
  rows : list (string -> option cell)
}.
Arguments mkDataFrame {cell} columns rows.
Arguments columns {cell} d.
Arguments rows {cell} d.

Definition is_null {cell : Type} (row : string -> option cell) (col : string)
  : bool :=
  match row col with
  | None => true
  | Some _ => false
  end.

(** [df[required_columns].isnull().sum()[col]] *)
Definition null_count {cell : Type} (df : DataFrame cell) (col : string) : nat :=
  List.length (filter (fun row => is_null row col) (rows df)).

(** [df.dropna(subset=required_columns)] *)
Definition dropna {cell : Type} (df : DataFrame cell)
    (subset : list string) : DataFrame cell :=
  mkDataFrame (columns df)
    (filter (fun row => forallb (fun col => negb (is_null row col)) subset)
            (rows df)).

(** How [validate_data] ends: with the frame it returns and the lines it
    printed; with the [ValueError] of line 107, which names the missing
    columns; or with the [ValueError] pandas raises at line 113 when
    [null_counts[col]] is a Series and not a number ("The truth value of
    a Series is ambiguous"), after the lines printed before it. *)
Inductive validated (cell : Type) :=
| Valid (printed : list (string * nat)) (df : DataFrame cell)
| ValueError (missing_cols : list string)
| AmbiguousTruthValue (printed : list (string * nat)) (col : string).
Arguments Valid {cell} printed df.
Arguments ValueError {cell} missing_cols.
Arguments AmbiguousTruthValue {cell} printed col.

(** The number of columns of [df[required_columns]] labelled [col]: one
    for each time the label is listed and each column of the frame that
    bears it.  [null_counts[col]] is a number when there is one such
    column and a Series when there are more. *)
Definition selected {cell : Type} (df : DataFrame cell)
    (required_columns : list string) (col : string) : nat :=
  count_occ string_dec required_columns col
  * count_occ string_dec (columns df) col.

(** One line of the report, for a column that has nulls. *)
Definition report_line {cell : Type} (df : DataFrame cell) (col : string)
  : list (string * nat) :=
  if (0 <? null_count df col)%nat then [(col, null_count df col)] else [].

(** Lines 112 to 114, the loop over the columns still to report: the
    lines printed, and the column at which the test of line 113 raised,
    if it did. *)
Fixpoint report_nulls {cell : Type} (df : DataFrame cell)
    (required_columns cols : list string) (printed : list (string * nat))
  : list (string * nat) * option string :=
  match cols with
  | [] => (printed, None)
  | col :: rest =>
      if (1 <? selected df required_columns col)%nat then (printed, Some col)
      else report_nulls df required_columns rest
                        (printed ++ report_line df col)
  end.

(** [DataProcessor.validate_data], lines 103 to 116: the columns reported
    with their number of nulls, and the frame without the rows that have
    one; or the error naming the missing columns; or the error of the
    report. *)
Definition validate_data {cell : Type} (df : DataFrame cell)
    (required_columns : list string) : validated cell :=
  let missing_cols :=
    filter (fun col => negb (existsb (String.eqb col) (columns df)))
           required_columns in
  match missing_cols with
  | _ :: _ => ValueError missing_cols
  | [] =>
      if (0 <? list_sum (map (null_count df) required_columns))%nat then
        match report_nulls df required_columns required_columns [] with
        | (printed, None) => Valid printed (dropna df required_columns)
        | (printed, Some col) => AmbiguousTruthValue printed col
        end
      else Valid [] (dropna df required_columns)
  end.

End Report.

(** * Properties *)

(** ** The link resolver *)

Section Resolver.

Lemma split_length (sep : ascii) (s : string) :
  List.length (PyStr.split sep s) = S (PyStr.count sep s).
Proof.
  induction s as [|c s IH]; simpl; [reflexivity|].
  destruct (Ascii.eqb c sep); simpl.
  - now rewrite IH.
  - destruct (PyStr.split sep s) as [|p ps] eqn:E; simpl in *; lia.
Qed.

Lemma last_two_spec (l : list string) :
  2 <= List.length l ->
  exists pre a b, l = pre ++ [a; b] /\ last_two l = Some (a, b).
Proof.
  induction l as [|x l IH]; simpl; [lia|].
  intros Hlen.
  destruct l as [|y l]; [simpl in Hlen; lia|].
  destruct l as [|z l].
  - exists [], x, y. split; reflexivity.
  - destruct IH as (pre & a & b & Heq & Hl); [simpl; lia|].
    exists (x :: pre), a, b. split.
    + simpl. now rewrite <- Heq.
    + exact Hl.
Qed.

Lemma resolve_unparsable_iff (repo_url : string) :
  host_matches repo_url = true ->
  (resolve repo_url = inl UnparsableLink <->
   PyStr.count "/" (PyStr.strip PyStr.is_slash repo_url) = 0).
Proof.
  intros Hhost. unfold resolve. rewrite Hhost. simpl.
  destruct (Nat.ltb_spec (List.length (parts repo_url)) 2) as [Hlt|Hge].
  - split; [intros _|reflexivity].
    unfold parts in Hlt. rewrite split_length in Hlt. lia.
  - destruct (last_two_spec _ Hge) as (pre & a & b & _ & Hl).
    rewrite Hl. split; [discriminate|].
    intros Hc. unfold parts in Hge. rewrite split_length in Hge. lia.
Qed.

Lemma resolve_last_two (repo_url : string) :
  host_matches repo_url = true ->
  PyStr.count "/" (PyStr.strip PyStr.is_slash repo_url) <> 0 ->
  exists pre owner_name repo_name,
    parts repo_url = pre ++ [owner_name; repo_name] /\
    resolve repo_url = inr (owner_name, repo_name).
Proof.
  intros Hhost Hc. unfold resolve. rewrite Hhost. simpl.
  assert (Hge : 2 <= List.length (parts repo_url)).
  { unfold parts. rewrite split_length. lia. }
  destruct (Nat.ltb_spec (List.length (parts repo_url)) 2) as [Hlt|_]; [lia|].
  destruct (last_two_spec _ Hge) as (pre & a & b & Heq & Hl).
  rewrite Hl. now exists pre, a, b.
Qed.

Lemma resolve_not_github (repo_url : string) :
  resolve repo_url = inl NotGithubLink <-> host_matches repo_url = false.
Proof.
  unfold resolve. destruct (host_matches repo_url); simpl.
  - split; [|discriminate].
    destruct (_ <? _)%nat; [discriminate|].
    destruct (last_two _); discriminate.
  - split; reflexivity.
Qed.

End Resolver.

(** C6, as the claim is worded, fails: a link on the expected host whose
    path has the single segment acme does not split into exactly an owner
    and a name, yet the resolver does not skip it; it takes the host for
    the owner. *)
Lemma resolve_accepts_one_segment_path :
  host_matches "https://github.com/acme" = true /\
  SpecResolver.splits_into_owner_and_name "https://github.com/acme" = false /\
  resolve "https://github.com/acme" = inr ("github.com", "acme").
Proof. repeat split. Qed.

(** C6, amended: for a link that contains the host name, the resolver skips
    it as unparsable exactly when the link, stripped of leading and trailing
    slashes, contains no slash at all; in every other case it resolves, and
    the owner and the name are the last two slash-separated parts of the
    stripped link. *)
Theorem resolve_on_host (repo_url : string) :
  host_matches repo_url = true ->
  (resolve repo_url = inl UnparsableLink <->
   PyStr.count "/" (PyStr.strip PyStr.is_slash repo_url) = 0) /\
  (PyStr.count "/" (PyStr.strip PyStr.is_slash repo_url) <> 0 ->
   exists pre owner_name repo_name,
     parts repo_url = pre ++ [owner_name; repo_name] /\
     resolve repo_url = inr (owner_name, repo_name)).
Proof.
  intros Hhost. split.
  - now apply resolve_unparsable_iff.
  - now apply resolve_last_two.
Qed.

Lemma resolve_on_host_witness :
  host_matches "https://github.com/acme/widget" = true /\
  ((resolve "https://github.com/acme/widget" = inl UnparsableLink <->
    PyStr.count "/"
      (PyStr.strip PyStr.is_slash "https://github.com/acme/widget") = 0) /\
   (PyStr.count "/"
      (PyStr.strip PyStr.is_slash "https://github.com/acme/widget") <> 0 ->
    exists pre owner_name repo_name,
      parts "https://github.com/acme/widget"
        = pre ++ [owner_name; repo_name] /\
      resolve "https://github.com/acme/widget" = inr (owner_name, repo_name))).
Proof.
  split; [reflexivity|].
  apply (resolve_on_host "https://github.com/acme/widget"). reflexivity.
Defined.

(** ** The metadata fetcher *)

(** Runs the try block symbolically: one case per request that can raise. *)
Ltac run_fetch g now name :=
  unfold first_failure, fetch, try_block, bind, call, sleep, print, emit,
    assign, read, ret;
  cbn beta iota;
  destruct (g name) as [repo|e1] eqn:Hrepo; cbn beta iota;
  [ destruct (get_contributors repo) as [cs|e2] eqn:Hcs; cbn beta iota;
    [ destruct (get_commits_since repo (now - thirty_days)%Z) as [n3|e3] eqn:Hn3;
      cbn beta iota;
      [ destruct (get_commits repo) as [n4|e4] eqn:Hn4; cbn beta iota | ]
    | ]
  | ].

Lemma fetch_silent g now name d0 :
  forallb silent (snd (fetch g now name (d0, []))) = true.
Proof. run_fetch g now name; reflexivity. Qed.

Lemma fetch_keeps_id g now name d0 :
  rr_id (fst (fetch g now name (d0, []))) = rr_id d0.
Proof. run_fetch g now name; reflexivity. Qed.

Lemma fetch_keeps_target g now name d0 :
  let d := fst (fetch g now name (d0, [])) in
  rr_link d = rr_link d0 /\ rr_owner d = rr_owner d0 /\
  rr_repo_name d = rr_repo_name d0.
Proof. run_fetch g now name; repeat split. Qed.


Lemma error_msg_class (e : exn) :
  match e with
  | GithubException status message =>
      exists rest,
        error_msg e = ("GitHub API 错误: " ++ PyStr.str_int status ++ " - " ++ rest)%string /\
        (forall m, message = Some m -> rest = m)
  | OtherException text => error_msg e = ("未知错误: " ++ text)%string
  end.
Proof.
  destruct e as [status [m|]|text]; simpl.
  - exists m. split; [reflexivity|]. now intros ? [= ->].
  - exists "No message". split; [reflexivity|discriminate].
  - reflexivity.
Qed.

(** What the record holds when request number [k] raised [e]. *)
Lemma fetch_failure_record g now name d0 k e :
  first_failure g now name = Some (k, e) ->
  let d := fst (fetch g now name (d0, [])) in
  rr_error d = Some (error_msg e) /\
  (* step 1 *)
  (k = 1 ->
     rr_stargazers_count d = rr_stargazers_count d0 /\
     rr_forks_count d = rr_forks_count d0 /\
     rr_open_issues_count d = rr_open_issues_count d0 /\
     rr_created_at d = rr_created_at d0 /\
     rr_pushed_at d = rr_pushed_at d0) /\
  (1 < k ->
     exists repo, g name = Ok repo /\
       rr_stargazers_count d = Some (stargazers_count repo) /\
       rr_forks_count d = Some (forks_count repo) /\
       rr_open_issues_count d = Some (open_issues_count repo) /\
       rr_created_at d = created_at repo /\
       rr_pushed_at d = pushed_at repo) /\
  (* step 2 *)
  (k <= 2 -> rr_contributor_list d = rr_contributor_list d0) /\
  (2 < k ->
     exists repo, g name = Ok repo /\
       get_contributors repo = Ok (rr_contributor_list d)) /\
  (* step 3 *)
  (k <= 3 -> rr_recent_commits_count d = rr_recent_commits_count d0) /\
  (3 < k ->
     exists repo n, g name = Ok repo /\
       get_commits_since repo (now - thirty_days)%Z = Ok n /\
       rr_recent_commits_count d = Some n) /\
  (* step 4 *)
  rr_total_commits_count d = rr_total_commits_count d0 /\
  1 <= k <= 4.
Proof.
  run_fetch g now name; intros [= <- <-] || discriminate;
    cbn -[thirty_days Z.sub];
    repeat split; intros; try lia; try reflexivity;
    repeat eexists; eassumption.
Qed.

(** ** Reading a trace *)

Section Traces.

Lemma dispatched_app (a b : list event) :
  dispatched (a ++ b) = dispatched a ++ dispatched b.
Proof.
  induction a as [|e a IH]; simpl; [reflexivity|].
  destruct e as [m| | | | |]; try exact IH.
  destruct m; try exact IH. simpl. now rewrite IH.
Qed.

Lemma appended_app (a b : list event) :
  appended (a ++ b) = appended a ++ appended b.
Proof.
  induction a as [|e a IH]; simpl; [reflexivity|].
  destruct e; try exact IH. simpl. now rewrite IH.
Qed.

Lemma saved_app (a b : list event) :
  saved (a ++ b) = saved a ++ saved b.
Proof.
  induction a as [|e a IH]; simpl; [reflexivity|].
  destruct e; try exact IH. simpl. now rewrite IH.
Qed.

Lemma calls_app (a b : list event) :
  calls (a ++ b) = calls a ++ calls b.
Proof.
  induction a as [|e a IH]; simpl; [reflexivity|].
  destruct e; try exact IH. simpl. now rewrite IH.
Qed.

Lemma replay_app (fs : files) (a b : list event) :
  replay fs (a ++ b) = replay (replay fs a) b.
Proof. unfold replay. apply fold_left_app. Qed.

Lemma silent_dispatched (tr : list event) :
  forallb silent tr = true -> dispatched tr = [].
Proof.
  induction tr as [|e tr IH]; simpl; [reflexivity|].
  intros H. apply andb_true_iff in H as [He Htr].
  destruct e as [m| | | | |]; try discriminate; auto.
  destruct m; try discriminate; auto.
Qed.

Lemma silent_appended (tr : list event) :
  forallb silent tr = true -> appended tr = [].
Proof.
  induction tr as [|e tr IH]; simpl; [reflexivity|].
  intros H. apply andb_true_iff in H as [He Htr].
  destruct e; try discriminate; auto.
Qed.

Lemma silent_saved (tr : list event) :
  forallb silent tr = true -> saved tr = [].
Proof.
  induction tr as [|e tr IH]; simpl; [reflexivity|].
  intros H. apply andb_true_iff in H as [He Htr].
  destruct e; try discriminate; auto.
Qed.

Lemma silent_replay (tr : list event) (fs : files) :
  forallb silent tr = true -> replay fs tr = fs.
Proof.
  revert fs. induction tr as [|e tr IH]; simpl; [reflexivity|].
  intros fs H. apply andb_true_iff in H as [He Htr].
  destruct e; try discriminate; simpl; auto.
Qed.

Lemma silent_well_paired (tr : list event) :
  forallb silent tr = true -> well_paired tr = true.
Proof.
  induction tr as [|e tr IH]; simpl; [reflexivity|].
  intros H. apply andb_true_iff in H as [He Htr].
  destruct e; try discriminate; auto.
Qed.

Lemma well_paired_cons (e : event) (tr : list event) :
  silent e = true \/ e = RemoveState \/ (exists m, e = Print m) ->
  well_paired (e :: tr) = well_paired tr.
Proof.
  intros [H|[->|[m ->]]]; [|reflexivity|reflexivity].
  destruct e; try discriminate; reflexivity.
Qed.

(** A well paired trace can be extended on the right: its appends are all
    answered inside it. *)
Lemma well_paired_app (a b : list event) :
  well_paired a = true -> well_paired (a ++ b) = well_paired b.
Proof.
  remember (List.length a) as n eqn:Hn.
  revert a Hn. induction n as [n IH] using lt_wf_ind.
  intros a Hn Ha. destruct a as [|e a]; [reflexivity|].
  destruct e as [m| | |r| |]; simpl in Ha |- *;
    try (apply (IH (List.length a)); simpl in Hn; [lia|reflexivity|exact Ha]).
  - destruct a as [|e' a]; [discriminate|].
    destruct e'; try discriminate. simpl.
    apply andb_true_iff in Ha as [Hid Ha]. rewrite Hid. simpl.
    apply (IH (List.length a)); simpl in Hn; [lia|reflexivity|exact Ha].
  - discriminate.
Qed.

End Traces.

Section Pairing.



End Pairing.

(** ** The sweep *)

Section Sweep.

Variable w : world.

Lemma skipn_cons_nth (A : Type) (l : list A) (k : nat) (x : A) (rest : list A) :
  skipn k l = x :: rest ->
  nth_error l k = Some x /\ skipn (S k) l = rest.
Proof.
  revert l. induction k as [|k IH]; intros l H.
  - destruct l; simpl in H; [discriminate|]. now inversion H.
  - destruct l as [|y l]; simpl in H; [discriminate|].
    destruct (IH l H) as [Hn Hs]. split; assumption.
Qed.

Lemma skipn_length_sub (A : Type) (l : list A) (k : nat) :
  List.length l - k = List.length (skipn k l).
Proof. now rewrite length_skipn. Qed.

(** The loop over [range(start, len(repos))] visits the items of
    [repos[start:]] in order, and never indexes out of range. *)
Lemma main_loop_sweep (repos : list WorkItem) (start : nat) (st : loop_state) :
  main_loop w repos start st =
  sweep w (List.length repos) start (skipn start repos) st.
Proof.
  unfold main_loop, range. rewrite skipn_length_sub.
  remember (skipn start repos) as todo eqn:Htodo.
  revert start st Htodo.
  induction todo as [|x todo IH]; intros start st Htodo; [reflexivity|].
  symmetry in Htodo. destruct (skipn_cons_nth _ _ _ _ _ Htodo) as [Hn Hs].
  simpl. rewrite Hn. apply IH. now symmetry.
Qed.

Lemma item_events_skipped total i repo_info reason :
  resolve (github_link repo_info) = inl reason ->
  exists m,
    item_events w total i repo_info =
    (false, [Print (MsgProcessing (i + 1) total (item_id repo_info)
                                  (github_link repo_info)); Print m]) /\
    (m = MsgNotGithub \/ m = MsgUnparsable).
Proof.
  intros H. unfold item_events. rewrite H.
  destruct reason; eexists; split; try reflexivity; auto.
Qed.

Lemma item_events_resolved total i repo_info owner_name repo_name :
  resolve (github_link repo_info) = inr (owner_name, repo_name) ->
  let st := fetch (get_repo w) (now w i) (repo_full_name owner_name repo_name)
              (result_data (item_id repo_info) (github_link repo_info)
                           owner_name repo_name, []) in
  item_events w total i repo_info =
  (true, Print (MsgProcessing (i + 1) total (item_id repo_info)
                              (github_link repo_info))
         :: snd st ++ [Append (fst st); SaveState (item_id repo_info)]).
Proof.
  intros H. unfold item_events. rewrite H. cbv zeta.
  destruct (fetch _ _ _ _) as [d tr]. reflexivity.
Qed.

Lemma item_events_counted total i repo_info :
  fst (item_events w total i repo_info) =
  match resolve (github_link repo_info) with
  | inl _ => false
  | inr _ => true
  end.
Proof.
  destruct (resolve (github_link repo_info)) as [reason|[o n]] eqn:H.
  - destruct (item_events_skipped total i _ _ H) as (m & -> & _). reflexivity.
  - now rewrite (item_events_resolved total i _ _ _ H).
Qed.

Lemma item_events_dispatched total i repo_info :
  dispatched (snd (item_events w total i repo_info)) = [(i, repo_info)].
Proof.
  destruct repo_info as [id url].
  destruct (resolve url) as [reason|[o n]] eqn:H.
  - destruct (item_events_skipped total i (mkWorkItem id url) _ H)
      as (m & -> & [-> | ->]); simpl;
      now replace (i + 1 - 1) with i by lia.
  - rewrite (item_events_resolved total i (mkWorkItem id url) _ _ H).
    simpl. rewrite dispatched_app, silent_dispatched by apply fetch_silent.
    simpl. now replace (i + 1 - 1) with i by lia.
Qed.

Lemma item_events_well_paired total i repo_info :
  well_paired (snd (item_events w total i repo_info)) = true.
Proof.
  destruct (resolve (github_link repo_info)) as [reason|[o n]] eqn:H.
  - destruct (item_events_skipped total i _ _ H) as (m & -> & _). reflexivity.
  - rewrite (item_events_resolved total i _ _ _ H). simpl.
    rewrite well_paired_app by (apply silent_well_paired, fetch_silent).
    simpl. rewrite fetch_keeps_id. simpl. now rewrite Z.eqb_refl.
Qed.

Lemma sweep_log total i todo st :
  log (sweep w total i todo st) = log st ++ sweep_events w total i todo.
Proof.
  revert i st. induction todo as [|x todo IH]; intros i st; simpl.
  - now rewrite app_nil_r.
  - rewrite IH. unfold loop_body.
    destruct (item_events w total i x) as [c tr]. simpl.
    now rewrite app_assoc.
Qed.

Lemma sweep_processed_count total i todo st :
  processed_count (sweep w total i todo st) = processed_count st + counted todo.
Proof.
  revert i st. induction todo as [|x todo IH]; intros i st; simpl; [lia|].
  rewrite IH. unfold loop_body.
  pose proof (item_events_counted total i x) as Hc.
  destruct (item_events w total i x) as [c tr]. simpl in *. subst c.
  destruct (resolve (github_link x)); simpl; lia.
Qed.

Lemma sweep_repo_id total i todo st :
  repo_id (sweep w total i todo st) =
  fold_left (fun _ x => Some (item_id x)) todo (repo_id st).
Proof.
  revert i st. induction todo as [|x todo IH]; intros i st; [reflexivity|].
  cbn [sweep fold_left]. rewrite IH. unfold loop_body.
  destruct (item_events w total i x). reflexivity.
Qed.

Lemma sweep_repo_id_bound total i todo st :
  todo <> [] -> exists id, repo_id (sweep w total i todo st) = Some id.
Proof.
  rewrite sweep_repo_id. intros Hne.
  destruct todo as [|x todo]; [contradiction|]. simpl.
  generalize (item_id x). clear. induction todo as [|y todo IH]; intros z.
  - now exists z.
  - simpl. apply IH.
Qed.

Lemma sweep_events_dispatched total i todo :
  dispatched (sweep_events w total i todo) = enumerate i todo.
Proof.
  revert i. induction todo as [|x todo IH]; intros i; simpl; [reflexivity|].
  now rewrite dispatched_app, item_events_dispatched, IH.
Qed.

Lemma sweep_events_well_paired total i todo :
  well_paired (sweep_events w total i todo) = true.
Proof.
  revert i. induction todo as [|x todo IH]; intros i; simpl; [reflexivity|].
  rewrite well_paired_app by apply item_events_well_paired. apply IH.
Qed.

End Sweep.

(** ** Loading the work list *)

(** What [line.strip()] removes: the line feed that ends the line, and
    white space at either end, also beyond ASCII (here a tab, U+3000,
    U+00A0 and a space); white space inside the line stays. *)
Lemma strip_space_examples :
  PyStr.strip_space
    (String "009" ("　{1: a　b} "
                   ++ String "194" (String "160" (String "010" EmptyString))))
    = "{1: a　b}" /\
  PyStr.strip_space (String " " (String "010" EmptyString)) = EmptyString /\
  PyStr.strip_space "中 文" = "中 文".
Proof. repeat split. Qed.

Lemma load_lines_spec loads lines acc :
  fold_left (load_line loads) lines acc =
  (fst acc ++ parseable loads lines,
   snd acc ++ map (fun l => Print (MsgSkippedLine l)) (unparseable loads lines)).
Proof.
  revert acc. induction lines as [|line lines IH]; intros [items log0].
  - simpl. now rewrite !app_nil_r.
  - cbn [fold_left]. rewrite IH. unfold load_line, parseable, unparseable.
    cbn [flat_map fst snd].
    destruct (loads (PyStr.strip_space line)); cbn [fst snd];
      rewrite ?map_app, <- ?app_assoc; reflexivity.
Qed.

Lemma repos_to_crawl_spec (w : world) :
  repos_to_crawl w =
  match input_file w with
  | None => None
  | Some lines =>
      Some (parseable (json_loads w) lines,
            map (fun l => Print (MsgSkippedLine l))
                (unparseable (json_loads w) lines))
  end.
Proof.
  unfold repos_to_crawl. destruct (input_file w); [|reflexivity].
  now rewrite load_lines_spec.
Qed.

Lemma skipped_lines_silent (ls : list string) :
  forallb silent (map (fun l => Print (MsgSkippedLine l)) ls) = true.
Proof. induction ls; simpl; auto. Qed.

Lemma start_index_silent repos sf :
  forallb silent (snd (start_index repos sf)) = true.
Proof. destruct sf as [[|]|]; reflexivity. Qed.

Lemma forallb_silent_app (a b : list event) :
  forallb silent a = true -> forallb silent b = true ->
  forallb silent (a ++ b) = true.
Proof. intros Ha Hb. rewrite forallb_app, Ha, Hb. reflexivity. Qed.

(** ** The whole run *)

Section Closing.

Lemma closing_dispatched (tr : list event) :
  forallb closing tr = true -> dispatched tr = [].
Proof.
  induction tr as [|e tr IH]; simpl; [reflexivity|].
  intros H. apply andb_true_iff in H as [He Htr].
  destruct e as [m| | | | |]; try discriminate; auto.
  destruct m; try discriminate; auto.
Qed.

Lemma closing_appended (tr : list event) :
  forallb closing tr = true -> appended tr = [].
Proof.
  induction tr as [|e tr IH]; simpl; [reflexivity|].
  intros H. apply andb_true_iff in H as [He Htr].
  destruct e; try discriminate; auto.
Qed.

Lemma closing_saved (tr : list event) :
  forallb closing tr = true -> saved tr = [].
Proof.
  induction tr as [|e tr IH]; simpl; [reflexivity|].
  intros H. apply andb_true_iff in H as [He Htr].
  destruct e; try discriminate; auto.
Qed.

Lemma closing_well_paired (tr : list event) :
  forallb closing tr = true -> well_paired tr = true.
Proof.
  induction tr as [|e tr IH]; simpl; [reflexivity|].
  intros H. apply andb_true_iff in H as [He Htr].
  destruct e; try discriminate; auto.
Qed.

End Closing.

(** A run that gets past start-up is the sweep, then the report. *)
Lemma main_started (w : world) user repos warnings :
  login w = Ok user ->
  repos_to_crawl w = Some (repos, warnings) ->
  exists pre,
    forallb silent pre = true /\
    main w = finish w repos (offset w)
               (sweep w (List.length repos) (offset w)
                      (skipn (offset w) repos) (mkLoop 0 None pre)).
Proof.
  intros Hlogin Hload. unfold main, offset, loaded. rewrite Hlogin, Hload.
  pose proof (start_index_silent repos (state_file (disk w))) as Hs.
  destruct (start_index repos (state_file (disk w))) as [start resume_log].
  cbn [fst snd] in *.
  eexists. split; [|rewrite main_loop_sweep; reflexivity].
  rewrite repos_to_crawl_spec in Hload.
  destruct (input_file w); [|discriminate]. injection Hload as _ <-.
  cbn [app forallb silent andb].
  repeat apply forallb_silent_app; auto using skipped_lines_silent.
Qed.

(** The events of a run that gets past start-up: silent start-up, the
    sweep of the items from the offset on, and a closing part. *)
Lemma main_started_events (w : world) user repos warnings :
  login w = Ok user ->
  repos_to_crawl w = Some (repos, warnings) ->
  exists pre post,
    forallb silent pre = true /\ forallb closing post = true /\
    events (main w) =
    pre ++ sweep_events w (List.length repos) (offset w)
                        (skipn (offset w) repos) ++ post.
Proof.
  intros Hlogin Hload.
  destruct (main_started w _ _ _ Hlogin Hload) as (pre & Hpre & ->).
  exists pre.
  unfold finish. rewrite sweep_log. cbn [log].
  set (sw := sweep_events _ _ _ _).
  destruct (repo_id _); [destruct (_ <=? _)%nat; [destruct (state_file _)|]|];
    eexists; (split; [exact Hpre|]);
    (split; [|cbn [events]; rewrite <- !app_assoc; reflexivity]);
    reflexivity.
Qed.

(** The events of any run. *)
Lemma main_events_shape (w : world) :
  exists pre total i todo post,
    forallb silent pre = true /\ forallb closing post = true /\
    events (main w) = pre ++ sweep_events w total i todo ++ post.
Proof.
  destruct (login w) as [user|e] eqn:Hlogin.
  - destruct (repos_to_crawl w) as [[repos warnings]|] eqn:Hload.
    + destruct (main_started_events w _ _ _ Hlogin Hload)
        as (pre & post & Hpre & Hpost & ->).
      now exists pre, (List.length repos), (offset w), (skipn (offset w) repos), post.
    + unfold main. rewrite Hlogin, Hload.
      eexists. exists 0, 0, [], []. split; [|split; [reflexivity|]].
      2: { cbn [sweep_events events]. rewrite !app_nil_r. reflexivity. }
      reflexivity.
  - unfold main. rewrite Hlogin.
    eexists. exists 0, 0, [], []. split; [|split; [reflexivity|]].
    2: { cbn [sweep_events events]. rewrite !app_nil_r. reflexivity. }
    reflexivity.
Qed.

Lemma main_well_paired (w : world) : well_paired (events (main w)) = true.
Proof.
  destruct (main_events_shape w) as (pre & total & i & todo & post & Hpre & Hpost & ->).
  rewrite well_paired_app by now apply silent_well_paired.
  rewrite well_paired_app by apply sweep_events_well_paired.
  now apply closing_well_paired.
Qed.

Lemma main_dispatched (w : world) user repos warnings :
  login w = Ok user ->
  repos_to_crawl w = Some (repos, warnings) ->
  dispatched (events (main w)) = enumerate (offset w) (skipn (offset w) repos).
Proof.
  intros Hlogin Hload.
  destruct (main_started_events w _ _ _ Hlogin Hload)
    as (pre & post & Hpre & Hpost & ->).
  rewrite !dispatched_app, sweep_events_dispatched.
  rewrite (silent_dispatched pre Hpre), (closing_dispatched post Hpost).
  now rewrite app_nil_r.
Qed.

(** ** What the sweep leaves in the two artifacts *)

Section Artifacts.

Variable w : world.

Lemma item_events_state_file total i repo_info fs :
  state_file (replay fs (snd (item_events w total i repo_info))) =
  match resolve (github_link repo_info) with
  | inl _ => state_file fs
  | inr _ => Some (LastId (item_id repo_info))
  end.
Proof.
  destruct (resolve (github_link repo_info)) as [reason|[o n]] eqn:H.
  - destruct (item_events_skipped w total i _ _ H) as (m & -> & _). reflexivity.
  - rewrite (item_events_resolved w total i _ _ _ H). cbn [snd].
    change (?x :: ?l ++ ?r) with ([x] ++ l ++ r).
    rewrite !replay_app. reflexivity.
Qed.

Lemma sweep_events_state_file total i todo fs :
  state_file (replay fs (sweep_events w total i todo)) =
  last_counted todo (state_file fs).
Proof.
  revert i fs. induction todo as [|x todo IH]; intros i fs; [reflexivity|].
  cbn [sweep_events last_counted]. rewrite replay_app, IH.
  rewrite item_events_state_file.
  destruct (resolve (github_link x)); reflexivity.
Qed.

Lemma last_counted_some todo sf :
  0 < counted todo -> last_counted todo sf <> None.
Proof.
  revert sf. induction todo as [|x todo IH]; intros sf; simpl; [lia|].
  destruct (resolve (github_link x)); [apply IH|].
  intros _. clear. generalize (item_id x).
  induction todo as [|y todo IH]; intros z; simpl; [discriminate|].
  destruct (resolve (github_link y)); apply IH.
Qed.


End Artifacts.

(** ** How a run ends *)

Lemma offset_loaded (w : world) repos warnings :
  repos_to_crawl w = Some (repos, warnings) ->
  offset w = fst (start_index repos (state_file (disk w))).
Proof. intros H. unfold offset, loaded. now rewrite H. Qed.

(** No iteration: the report reads [repo_id] before anything bound it. *)
Lemma main_nothing_swept (w : world) user repos warnings :
  login w = Ok user ->
  repos_to_crawl w = Some (repos, warnings) ->
  List.length repos <= offset w ->
  exists tr,
    forallb silent tr = true /\
    main w = mkRun tr (Uncaught (NameError "repo_id")).
Proof.
  intros Hlogin Hload Hlen.
  destruct (main_started w _ _ _ Hlogin Hload) as (pre & Hpre & ->).
  rewrite skipn_all2 by exact Hlen. cbn [sweep]. unfold finish. cbn.
  eexists. split; [|reflexivity].
  apply forallb_silent_app; [exact Hpre|reflexivity].
Qed.

(** At least one iteration: the script runs to its last line. *)
Lemma main_swept (w : world) user repos warnings :
  login w = Ok user ->
  repos_to_crawl w = Some (repos, warnings) ->
  offset w < List.length repos ->
  ending (main w) = Finished /\
  state_file (replay (disk w) (events (main w))) =
  if (List.length repos <=? offset w + counted (skipn (offset w) repos))%nat
  then None
  else last_counted (skipn (offset w) repos) (state_file (disk w)).
Proof.
  intros Hlogin Hload Hlen.
  destruct (main_started w _ _ _ Hlogin Hload) as (pre & Hpre & ->).
  set (todo := skipn (offset w) repos).
  assert (Hne : todo <> []).
  { intros E. apply (f_equal (@List.length _)) in E.
    unfold todo in E. rewrite length_skipn in E. simpl in E. lia. }
  destruct (sweep_repo_id_bound w (List.length repos) (offset w) todo
              (mkLoop 0 None pre) Hne) as [id Hid].
  unfold finish. rewrite Hid, sweep_processed_count, sweep_log.
  cbn [processed_count log]. rewrite Nat.add_0_l.
  set (sw := sweep_events w (List.length repos) (offset w) todo).
  set (report := [Print MsgDone; Print (MsgProcessed (counted todo));
                  Print MsgSavedTo]).
  assert (Hsf : state_file (replay (disk w)
                  (((pre ++ sw) ++ report) ++ [Print (MsgLastRecorded id)]))
                = last_counted todo (state_file (disk w))).
  { rewrite !replay_app. unfold sw. cbn [report replay fold_left apply_event].
    rewrite sweep_events_state_file.
    now rewrite (silent_replay pre) by exact Hpre. }
  rewrite Hsf.
  destruct (Nat.leb_spec (List.length repos) (offset w + counted todo)) as [Hall|Hnot].
  - destruct (last_counted todo (state_file (disk w))) eqn:Hlc.
    + split; [reflexivity|]. cbn [events]. rewrite replay_app. reflexivity.
    + exfalso. revert Hlc. apply last_counted_some. lia.
  - split; [reflexivity|]. cbn [events]. exact Hsf.
Qed.

(** ** C1: the resume offset *)






(** ** The events of one dispatched item inside a run *)

Lemma enumerate_in_split (todo : list WorkItem) (i j : nat) (x : WorkItem) :
  In (j, x) (enumerate i todo) ->
  exists a b, todo = a ++ x :: b /\ j = i + List.length a.
Proof.
  revert i. induction todo as [|y todo IH]; intros i; simpl; [tauto|].
  intros [[= <- <-]|Hin].
  - exists [], todo. split; [reflexivity|simpl; lia].
  - destruct (IH _ Hin) as (a & b & -> & ->).
    exists (y :: a), b. split; [reflexivity|simpl; lia].
Qed.

Lemma sweep_events_app (w : world) total i (a b : list WorkItem) :
  sweep_events w total i (a ++ b) =
  sweep_events w total i a ++ sweep_events w total (i + List.length a) b.
Proof.
  revert i. induction a as [|x a IH]; intros i; simpl.
  - now rewrite Nat.add_0_r.
  - rewrite IH, <- app_assoc. now replace (S i + List.length a) with
      (i + S (List.length a)) by lia.
Qed.

(** What a run does for an item it dispatched is a segment of its trace. *)
Lemma main_item_events (w : world) (j : nat) (repo_info : WorkItem) :
  In (j, repo_info) (dispatched (events (main w))) ->
  exists before after,
    events (main w) =
    before ++ snd (item_events w (List.length (loaded w)) j repo_info) ++ after.
Proof.
  intros Hin.
  destruct (login w) as [user|e] eqn:Hlogin.
  - destruct (repos_to_crawl w) as [[repos warnings]|] eqn:Hload.
    + assert (Hl : loaded w = repos) by (unfold loaded; now rewrite Hload).
      rewrite (main_dispatched w _ _ _ Hlogin Hload) in Hin.
      destruct (main_started_events w _ _ _ Hlogin Hload)
        as (pre & post & _ & _ & ->).
      destruct (enumerate_in_split _ _ _ _ Hin) as (a & b & -> & ->).
      rewrite Hl, sweep_events_app. cbn [sweep_events].
      exists (pre ++ sweep_events w (List.length repos) (offset w) a).
      eexists. rewrite <- !app_assoc. reflexivity.
    + exfalso. unfold main in Hin. rewrite Hlogin, Hload in Hin. exact Hin.
  - exfalso. unfold main in Hin. rewrite Hlogin in Hin. exact Hin.
Qed.

(** ** C2 and C3: items that are skipped *)

(** C2, as the claim is worded, fails: in the two-line dataset the second
    link is not a GitHub link; the item is dispatched and skipped, but the
    only id ever saved is 1, and the state file still holds 1, not 2, when
    the run is over. *)
Lemma skipped_item_saves_no_checkpoint :
  resolve (github_link Scenario.item2) = inl NotGithubLink /\
  dispatched (events (main Scenario.two_items)) =
    [(0, Scenario.item1); (1, Scenario.item2)] /\
  saved (events (main Scenario.two_items)) = [1%Z] /\
  state_file (final_files Scenario.two_items) = Some (LastId 1).
Proof. repeat split. Qed.

Lemma skipped_item_events (w : world) (total i : nat)
    (repo_info : WorkItem) (reason : skip_reason) :
  resolve (github_link repo_info) = inl reason ->
  let tr := snd (item_events w total i repo_info) in
  fst (item_events w total i repo_info) = false /\
  appended tr = [] /\
  calls tr = [] /\
  saved tr = [] /\
  (forall fs, replay fs tr = fs).
Proof.
  intros H.
  destruct (item_events_skipped w total i _ _ H) as (m & -> & _).
  repeat split.
Qed.

(** C2, amended: in every run, an item that is dispatched and whose link
    fails resolution (no host name in it, or nothing to split) is skipped:
    what the run does for it appends no record, makes no remote call and
    does not save the checkpoint either; the output file and the state file
    are after the item exactly what they were before it. *)
Theorem skipped_item_leaves_no_trace (w : world) (j : nat)
    (repo_info : WorkItem) (reason : skip_reason) :
  In (j, repo_info) (dispatched (events (main w))) ->
  resolve (github_link repo_info) = inl reason ->
  exists before tr after,
    events (main w) = before ++ tr ++ after /\
    tr = snd (item_events w (List.length (loaded w)) j repo_info) /\
    appended tr = [] /\
    calls tr = [] /\
    saved tr = [] /\
    replay (disk w) (before ++ tr) = replay (disk w) before.
Proof.
  intros Hin Hres.
  destruct (main_item_events w j repo_info Hin) as (before & after & Heq).
  destruct (skipped_item_events w (List.length (loaded w)) j _ _ Hres)
    as (_ & Ha & Hc & Hs & Hr).
  exists before. eexists. exists after.
  split; [exact Heq|]. split; [reflexivity|].
  split; [exact Ha|]. split; [exact Hc|]. split; [exact Hs|].
  rewrite replay_app. apply Hr.
Qed.

Lemma skipped_item_leaves_no_trace_witness :
  In (1, Scenario.item2) (dispatched (events (main Scenario.two_items))) /\
  resolve (github_link Scenario.item2) = inl NotGithubLink /\
  exists before tr after,
    events (main Scenario.two_items) = before ++ tr ++ after /\
    tr = snd (item_events Scenario.two_items 2 1 Scenario.item2) /\
    saved tr = [] /\
    replay (disk Scenario.two_items) (before ++ tr)
      = replay (disk Scenario.two_items) before.
Proof.
  assert (Hin : In (1, Scenario.item2)
                   (dispatched (events (main Scenario.two_items))))
    by (right; left; reflexivity).
  split; [exact Hin|]. split; [reflexivity|].
  destruct (skipped_item_leaves_no_trace Scenario.two_items 1 Scenario.item2
              NotGithubLink Hin eq_refl)
    as (before & tr & after & Heq & Htr & _ & _ & Hs & Hr).
  exists before, tr, after.
  split; [exact Heq|]. split; [exact Htr|]. split; [exact Hs|exact Hr].
Defined.


(** C3 fails on the specification's own scenario: the sweep of the two-line
    dataset reaches the end and the script finishes normally, but the guard
    of the clean-up counts only the items that were not skipped (1 of 2),
    nothing is removed, and the state file is left holding 1. *)
Theorem two_items_checkpoint_left :
  ending (main Scenario.two_items) = Finished /\
  dispatched (events (main Scenario.two_items)) =
    [(0, Scenario.item1); (1, Scenario.item2)] /\
  In (Print (MsgProcessed 1)) (events (main Scenario.two_items)) /\
  state_file (final_files Scenario.two_items) = Some (LastId 1).
Proof.
  split; [reflexivity|]. split; [reflexivity|]. split; [|reflexivity].
  vm_compute. tauto.
Qed.

(** ** A failure its handler can format still yields a record *)

Lemma failed_item_record (w : world) (total i : nat) (repo_info : WorkItem)
    (owner_name repo_name : string) (k : nat) (e : exn) :
  resolve (github_link repo_info) = inr (owner_name, repo_name) ->
  first_failure (get_repo w) (now w i) (repo_full_name owner_name repo_name)
    = Some (k, e) ->
  exists r,
    appended (snd (item_events w total i repo_info)) = [r] /\
    rr_id r = item_id repo_info /\
    rr_link r = github_link repo_info /\
    rr_owner r = owner_name /\
    rr_repo_name r = repo_name /\
    rr_error r = Some (error_msg e) /\
    fetched_up_to (get_repo w) (now w i)
                  (repo_full_name owner_name repo_name) k r.
Proof.
  intros Hres Hfail.
  rewrite (item_events_resolved w total i _ _ _ Hres). cbn [snd].
  set (d0 := result_data _ _ _ _).
  set (g := get_repo w). set (t := now w i).
  set (name := repo_full_name owner_name repo_name).
  fold g t name in Hfail.
  exists (fst (fetch g t name (d0, []))).
  split.
  { change (?x :: ?l ++ ?r) with ([x] ++ l ++ r).
    rewrite !appended_app.
    rewrite (silent_appended (snd _)) by apply fetch_silent. reflexivity. }
  split; [apply fetch_keeps_id|].
  destruct (fetch_keeps_target g t name d0) as (Hl & Ho & Hn).
  split; [exact Hl|]. split; [exact Ho|]. split; [exact Hn|].
  exact (fetch_failure_record g t name d0 k e Hfail).
Qed.

(** In front of an API whose [GithubException]s carry a dict: when an
    item is dispatched, its link resolves and request number [k] of its
    fetch raises [e], what the run does for the item appends exactly one
    record; the error field of that record is set and holds the text built
    from the class of [e] and its message; the fields of the requests
    before [k] hold what was fetched, and the fields of request [k] and of
    the later ones are still None (the contributor list empty). *)
Lemma formatted_failure_recorded (w : world) (j : nat) (repo_info : WorkItem)
    (owner_name repo_name : string) (k : nat) (e : exn) :
  In (j, repo_info) (dispatched (events (main w))) ->
  resolve (github_link repo_info) = inr (owner_name, repo_name) ->
  first_failure (get_repo w) (now w j) (repo_full_name owner_name repo_name)
    = Some (k, e) ->
  exists before tr after r,
    events (main w) = before ++ tr ++ after /\
    tr = snd (item_events w (List.length (loaded w)) j repo_info) /\
    appended tr = [r] /\
    rr_id r = item_id repo_info /\
    rr_link r = github_link repo_info /\
    rr_owner r = owner_name /\
    rr_repo_name r = repo_name /\
    rr_error r = Some (error_msg e) /\
    rr_error r <> None /\
    fetched_up_to (get_repo w) (now w j)
                  (repo_full_name owner_name repo_name) k r.
Proof.
  intros Hin Hres Hfail.
  destruct (main_item_events w j repo_info Hin) as (before & after & Heq).
  destruct (failed_item_record w (List.length (loaded w)) j _ _ _ k e Hres Hfail)
    as (r & Ha & Hid & Hl & Ho & Hn & He & Hf).
  exists before. eexists. exists after, r.
  split; [exact Heq|]. split; [reflexivity|]. split; [exact Ha|].
  split; [exact Hid|]. split; [exact Hl|]. split; [exact Ho|].
  split; [exact Hn|]. split; [exact He|]. split; [|exact Hf].
  rewrite He. discriminate.
Qed.

Lemma formatted_failure_recorded_example :
  In (1, Scenario.item3) (dispatched (events (main Scenario.resumed))) /\
  resolve (github_link Scenario.item3) = inr ("acme", "gadget") /\
  first_failure (get_repo Scenario.resumed) (now Scenario.resumed 1)
    "acme/gadget" = Some (1, OtherException "timed out") /\
  exists r,
    appended (snd (item_events Scenario.resumed 2 1 Scenario.item3)) = [r] /\
    rr_id r = 3%Z /\
    rr_error r = Some "未知错误: timed out" /\
    rr_stargazers_count r = None.
Proof.
  assert (Hin : In (1, Scenario.item3)
                   (dispatched (events (main Scenario.resumed))))
    by (left; reflexivity).
  split; [exact Hin|]. split; [reflexivity|]. split; [reflexivity|].
  destruct (formatted_failure_recorded Scenario.resumed 1 Scenario.item3
              "acme" "gadget" 1 (OtherException "timed out")
              Hin eq_refl eq_refl)
    as (before & tr & after & r & _ & -> & Ha & Hid & _ & _ & _ & He & _ & Hf).
  exists r. split; [exact Ha|]. split; [exact Hid|]. split; [exact He|].
  destruct Hf as (H1 & _). now apply H1.
Defined.

(** The same for a refused contributor listing after a summary that was
    fetched: the counts are kept, the list stays empty. *)
Lemma contributors_refused_record :
  exists r,
    appended (snd (item_events Scenario.resumed 2 0 Scenario.item1)) = [r] /\
    rr_error r = Some "GitHub API 错误: 403 - API rate limit exceeded" /\
    rr_stargazers_count r = Some 42%Z /\
    rr_forks_count r = Some 7%Z /\
    rr_contributor_list r = [] /\
    rr_total_commits_count r = None.
Proof. eexists. repeat split. Qed.

(** ** C5: the record is written before the checkpoint *)





(** ** C8, C9, C10: start-up and the end of the run *)



Lemma silent_calls_free (tr : list event) :
  forallb silent tr = true ->
  dispatched tr = [] /\ appended tr = [] /\ saved tr = [] /\
  forall fs, replay fs tr = fs.
Proof.
  intros H. split; [now apply silent_dispatched|].
  split; [now apply silent_appended|].
  split; [now apply silent_saved|].
  intros fs. now apply silent_replay.
Qed.



(** C9: when the work list is empty, or the offset computed from the state
    file is past the last item, the loop body never runs, the report reads
    [repo_id] that nothing has assigned, and the process dies of a
    NameError: nothing was dispatched and both artifacts, the state file
    included, are as they were. *)
Theorem report_without_iteration (w : world) (user : string)
    (repos : list WorkItem) (warnings : list event) :
  login w = Ok user ->
  repos_to_crawl w = Some (repos, warnings) ->
  repos = [] \/ List.length repos <= offset w ->
  ending (main w) = Uncaught (NameError "repo_id") /\
  exit_status (ending (main w)) = 1%Z /\
  dispatched (events (main w)) = [] /\
  final_files w = disk w.
Proof.
  intros Hlogin Hload Hnone.
  assert (Hlen : List.length repos <= offset w).
  { destruct Hnone as [-> | H]; [simpl; lia|exact H]. }
  destruct (main_nothing_swept w _ _ _ Hlogin Hload Hlen) as (tr & Hs & Hm).
  unfold final_files. rewrite Hm. cbn [ending events exit_status].
  destruct (silent_calls_free _ Hs) as (Hd & _ & _ & Hr).
  repeat split; [exact Hd|apply Hr].
Qed.

Lemma report_without_iteration_witness :
  (ending (main Scenario.empty_input) = Uncaught (NameError "repo_id") /\
   final_files Scenario.empty_input = disk Scenario.empty_input) /\
  (offset Scenario.checkpoint_on_last = 1 /\
   ending (main Scenario.checkpoint_on_last) = Uncaught (NameError "repo_id") /\
   state_file (final_files Scenario.checkpoint_on_last) = Some (LastId 1)).
Proof.
  split.
  - destruct (report_without_iteration Scenario.empty_input "crawler" [] []
                eq_refl eq_refl (or_introl eq_refl)) as (He & _ & _ & Hf).
    split; [exact He|exact Hf].
  - split; [reflexivity|].
    destruct (report_without_iteration Scenario.checkpoint_on_last "crawler"
                [Scenario.item1] [] eq_refl eq_refl (or_intror (le_n 1)))
      as (He & _ & _ & Hf).
    split; [exact He|]. rewrite Hf. reflexivity.
Defined.

(** The crash of C9 happens in no other run. *)
Lemma name_error_only_without_iteration (w : world) (name : string) :
  ending (main w) = Uncaught (NameError name) ->
  List.length (loaded w) <= offset w.
Proof.
  intros Hend.
  destruct (login w) as [user|e] eqn:Hlogin.
  - destruct (repos_to_crawl w) as [[repos warnings]|] eqn:Hload.
    + assert (Hl : loaded w = repos) by (unfold loaded; now rewrite Hload).
      rewrite Hl.
      destruct (Nat.le_gt_cases (List.length repos) (offset w)) as [H|H];
        [exact H|].
      destruct (main_swept w _ _ _ Hlogin Hload H) as [Hfin _].
      congruence.
    + unfold main in Hend. rewrite Hlogin, Hload in Hend. discriminate.
  - unfold main in Hend. rewrite Hlogin in Hend. discriminate.
Qed.


(** * Further properties of the crawler *)

(** ** Strings: strip and split *)

Section StringFacts.

Variable p : ascii -> bool.

Lemma append_nil_r (s : string) : (s ++ "")%string = s.
Proof. induction s; simpl; congruence. Qed.

Lemma append_assoc (a b c : string) :
  ((a ++ b) ++ c)%string = (a ++ (b ++ c))%string.
Proof. induction a; simpl; congruence. Qed.

Lemma lstrip_snoc (s : string) (c : ascii) :
  p c = true ->
  PyStr.lstrip p (s ++ String c "") =
  match PyStr.lstrip p s with
  | EmptyString => EmptyString
  | t => (t ++ String c "")%string
  end.
Proof.
  intros Hc. induction s as [|x s IH]; simpl.
  - now rewrite Hc.
  - destruct (p x); [exact IH|reflexivity].
Qed.

Lemma rstrip_snoc (s : string) (c : ascii) :
  p c = true -> PyStr.rstrip p (s ++ String c "") = PyStr.rstrip p s.
Proof.
  intros Hc. induction s as [|x s IH]; simpl.
  - now rewrite Hc.
  - now rewrite IH.
Qed.

(** What [rstrip] returns does not end with a stripped character. *)
Lemma rstrip_last (s t : string) (c : ascii) :
  PyStr.rstrip p s = (t ++ String c "")%string -> p c = false.
Proof.
  revert t. induction s as [|x s IH]; intros t; simpl.
  - destruct t; discriminate.
  - destruct (PyStr.rstrip p s) as [|y r] eqn:E.
    + destruct (p x) eqn:Hx.
      * destruct t; discriminate.
      * destruct t as [|y t]; simpl.
        -- now intros [= <-].
        -- destruct t; discriminate.
    + destruct t as [|z t]; simpl; [discriminate|].
      intros [= _ H]. now apply (IH t).
Qed.

Lemma rstrip_keeps (s t : string) (c : ascii) :
  p c = false ->
  PyStr.rstrip p (s ++ String c t) = (s ++ PyStr.rstrip p (String c t))%string.
Proof.
  intros Hc.
  assert (Hne : PyStr.rstrip p (String c t) <> EmptyString).
  { simpl. destruct (PyStr.rstrip p t); [now rewrite Hc|discriminate]. }
  induction s as [|x s IH]; [reflexivity|].
  change (PyStr.rstrip p (String x s ++ String c t))
    with (match PyStr.rstrip p (s ++ String c t) with
          | EmptyString => if p x then EmptyString else String x EmptyString
          | String y r => String x (String y r)
          end).
  rewrite IH. set (r := PyStr.rstrip p (String c t)) in *.
  destruct (s ++ r)%string eqn:E; [|now rewrite <- E].
  exfalso. destruct s; simpl in E; [now apply Hne|discriminate].
Qed.

End StringFacts.

Section SplitFacts.

Variable sep : ascii.

Lemma split_nonempty (s : string) : PyStr.split sep s <> [].
Proof.
  pose proof (split_length sep s) as H.
  destruct (PyStr.split sep s); [discriminate|discriminate].
Qed.

(** ["a" + sep + "b"] splits into the parts of a followed by those of b. *)
Lemma split_app_sep (a b : string) :
  PyStr.split sep (a ++ String sep b) = PyStr.split sep a ++ PyStr.split sep b.
Proof.
  induction a as [|c a IH]; simpl.
  - now rewrite Ascii.eqb_refl.
  - rewrite IH. destruct (Ascii.eqb c sep); [reflexivity|].
    destruct (PyStr.split sep a) as [|x xs] eqn:E; [|reflexivity].
    now destruct (split_nonempty a).
Qed.

Lemma split_none (s : string) :
  PyStr.count sep s = 0 -> PyStr.split sep s = [s].
Proof.
  induction s as [|c s IH]; simpl; [reflexivity|].
  destruct (Ascii.eqb c sep); [discriminate|].
  intros H. now rewrite IH.
Qed.

(** No part contains the separator. *)
Lemma split_parts_clean (s part : string) :
  In part (PyStr.split sep s) -> PyStr.count sep part = 0.
Proof.
  revert part. induction s as [|c s IH]; intros part; simpl.
  - intros [<-|[]]. reflexivity.
  - destruct (Ascii.eqb c sep) eqn:Hc.
    + intros [<-|Hin]; [reflexivity|now apply IH].
    + destruct (PyStr.split sep s) as [|x xs] eqn:E.
      * intros [<-|[]]. simpl. now rewrite Hc.
      * intros [<-|Hin].
        -- simpl. rewrite Hc. apply IH. now left.
        -- apply IH. now right.
Qed.

Lemma concat_cons (d a : string) (l : list string) :
  l <> [] ->
  String.concat d (a :: l) = (a ++ d ++ String.concat d l)%string.
Proof. destruct l; [contradiction|reflexivity]. Qed.

(** Joining the parts gives the string back. *)
Lemma concat_split (s : string) :
  String.concat (String sep "") (PyStr.split sep s) = s.
Proof.
  induction s as [|c s IH]; [reflexivity|].
  simpl. destruct (Ascii.eqb_spec c sep) as [->|Hne].
  - rewrite concat_cons by apply split_nonempty. simpl. now rewrite IH.
  - destruct (PyStr.split sep s) as [|x xs] eqn:E;
      [now destruct (split_nonempty s)|].
    destruct xs as [|y ys].
    + simpl in IH |- *. now rewrite IH.
    + rewrite concat_cons in IH |- * by discriminate.
      rewrite <- IH. reflexivity.
Qed.

(** The last part is empty only for the empty string and for a string that
    ends with the separator. *)
Lemma split_last_empty (s : string) (l : list string) :
  PyStr.split sep s = l ++ [EmptyString] ->
  s = EmptyString \/ exists s', s = (s' ++ String sep "")%string.
Proof.
  revert l. induction s as [|c s IH]; intros l; [now left|].
  simpl. intros Heq. right. destruct (Ascii.eqb_spec c sep) as [->|Hne].
  - destruct l as [|x l]; simpl in Heq.
    + exfalso. apply (split_nonempty s). congruence.
    + assert (Hs : PyStr.split sep s = l ++ [EmptyString]) by congruence.
      destruct (IH l Hs) as [->|[s' ->]].
      * now exists EmptyString.
      * now exists (String sep s').
  - destruct (PyStr.split sep s) as [|x xs] eqn:E;
      [now destruct (split_nonempty s)|].
    destruct l as [|y l]; simpl in Heq; [discriminate|].
    injection Heq as Hy Hxs.
    destruct (IH (x :: l)) as [->|[s' ->]].
    + simpl. now rewrite Hxs.
    + simpl in E. injection E as _ Hxs'. subst xs. destruct l; discriminate.
    + now exists (String c s').
Qed.

End SplitFacts.

Lemma last_two_cons (x : string) (l : list string) :
  2 <= List.length l -> last_two (x :: l) = last_two l.
Proof.
  destruct l as [|y [|z l]]; simpl; intros H; try lia. reflexivity.
Qed.

Lemma last_two_app (pre : list string) (a b : string) :
  last_two (pre ++ [a; b]) = Some (a, b).
Proof.
  induction pre as [|x pre IH]; [reflexivity|].
  cbn [app]. rewrite last_two_cons; [exact IH|].
  rewrite length_app. simpl. lia.
Qed.

Section MoreStringFacts.

Lemma count_append (c : ascii) (a b : string) :
  PyStr.count c (a ++ b) = PyStr.count c a + PyStr.count c b.
Proof. induction a as [|x a IH]; simpl; [reflexivity|]. rewrite IH. lia. Qed.

Lemma lstrip_keeps (p : ascii -> bool) (a t : string) (c : ascii) :
  p c = false ->
  PyStr.lstrip p (a ++ String c t) = (PyStr.lstrip p a ++ String c t)%string.
Proof.
  intros Hc. induction a as [|x a IH]; simpl.
  - now rewrite Hc.
  - destruct (p x); [exact IH|reflexivity].
Qed.

Lemma rstrip_clean (s : string) :
  PyStr.count "/" s = 0 -> PyStr.rstrip PyStr.is_slash s = s.
Proof.
  induction s as [|c s IH]; [reflexivity|].
  cbn [PyStr.count PyStr.rstrip]. intros H.
  assert (Hc : PyStr.is_slash c = false).
  { unfold PyStr.is_slash. destruct (Ascii.eqb c "/"); [discriminate|reflexivity]. }
  rewrite IH.
  - destruct s; [now rewrite Hc|reflexivity].
  - unfold PyStr.is_slash in Hc. rewrite Hc in H. exact H.
Qed.

Lemma clean_head (c : ascii) (s : string) :
  PyStr.count "/" (String c s) = 0 -> PyStr.is_slash c = false.
Proof.
  simpl. unfold PyStr.is_slash. destruct (Ascii.eqb c "/"); [discriminate|reflexivity].
Qed.

Lemma prefix_snoc (n h : string) (c : ascii) :
  n <> EmptyString -> PyStr.count c n = 0 ->
  String.prefix n (h ++ String c "") = String.prefix n h.
Proof.
  revert n. induction h as [|b h IH]; intros n Hne Hc.
  - destruct n as [|a n]; [contradiction|]. simpl in Hc |- *.
    destruct (Ascii.eqb_spec a c) as [->|Hac]; [discriminate|].
    destruct (ascii_dec a c); [contradiction|reflexivity].
  - destruct n as [|a n]; [contradiction|]. simpl in Hc |- *.
    destruct (ascii_dec a b); [|reflexivity].
    destruct n as [|a' n]; [destruct h; reflexivity|].
    apply IH; [discriminate|].
    destruct (Ascii.eqb a c); [discriminate|exact Hc].
Qed.

Lemma contains_snoc (n h : string) (c : ascii) :
  n <> EmptyString -> PyStr.count c n = 0 ->
  PyStr.contains n (h ++ String c "") = PyStr.contains n h.
Proof.
  intros Hne Hc. induction h as [|b h IH].
  - cbn [append PyStr.contains].
    rewrite (prefix_snoc n EmptyString c Hne Hc : String.prefix n (String c "") = _).
    destruct (String.prefix n ""); reflexivity.
  - cbn [append PyStr.contains].
    rewrite (prefix_snoc n (String b h) c Hne Hc :
               String.prefix n (String b (h ++ String c "")) = _).
    now rewrite IH.
Qed.

Lemma strip_snoc (p : ascii -> bool) (s : string) (c : ascii) :
  p c = true -> PyStr.strip p (s ++ String c "") = PyStr.strip p s.
Proof.
  intros Hc. unfold PyStr.strip. rewrite lstrip_snoc by exact Hc.
  destruct (PyStr.lstrip p s) as [|x t] eqn:E; [reflexivity|].
  now rewrite rstrip_snoc.
Qed.

End MoreStringFacts.

(** ** The resolver on well-shaped links *)

(** X1: a link of the shape prefix/owner/name, on the expected host, with
    an owner and a name that are not empty and hold no slash, resolves to
    exactly that owner and that name, whatever the prefix is. *)
Theorem resolve_canonical (pre owner_name repo_name : string) :
  owner_name <> EmptyString ->
  repo_name <> EmptyString ->
  PyStr.count "/" owner_name = 0 ->
  PyStr.count "/" repo_name = 0 ->
  host_matches (pre ++ "/" ++ owner_name ++ "/" ++ repo_name)%string = true ->
  resolve (pre ++ "/" ++ owner_name ++ "/" ++ repo_name)%string
    = inr (owner_name, repo_name).
Proof.
  intros Ho Hn Hco Hcn Hhost.
  assert (Hparts : exists q,
             parts (pre ++ "/" ++ owner_name ++ "/" ++ repo_name)%string
             = q ++ [owner_name; repo_name]).
  { unfold parts, PyStr.strip.
    destruct owner_name as [|c o]; [contradiction|].
    destruct repo_name as [|d n]; [contradiction|].
    pose proof (clean_head _ _ Hco) as Hc.
    pose proof (clean_head _ _ Hcn) as Hd.
    replace (pre ++ "/" ++ String c o ++ "/" ++ String d n)%string
      with ((pre ++ "/") ++ String c (o ++ "/" ++ String d n))%string
      by (rewrite append_assoc; reflexivity).
    rewrite lstrip_keeps by exact Hc.
    set (q := PyStr.lstrip PyStr.is_slash (pre ++ "/")).
    replace (q ++ String c (o ++ "/" ++ String d n))%string
      with ((q ++ String c o ++ "/") ++ String d n)%string
      by (rewrite !append_assoc; reflexivity).
    rewrite rstrip_keeps by exact Hd.
    rewrite (rstrip_clean _ Hcn).
    replace ((q ++ String c o ++ "/") ++ String d n)%string
      with ((q ++ String c o) ++ String "/" (String d n))%string
      by (rewrite !append_assoc; reflexivity).
    rewrite split_app_sep, (split_none _ _ Hcn).
    assert (Hq : exists l, PyStr.split "/" (q ++ String c o) = l ++ [String c o]).
    { unfold q. rewrite lstrip_snoc by reflexivity.
      destruct (PyStr.lstrip PyStr.is_slash pre) as [|x t].
      - exists []. simpl append. now rewrite (split_none _ _ Hco).
      - exists (PyStr.split "/" (String x t)).
        rewrite append_assoc. cbn [append].
        change (String x (t ++ String "/" (String c o)))
          with (String x t ++ String "/" (String c o))%string.
        now rewrite split_app_sep, (split_none _ _ Hco). }
    destruct Hq as [l ->]. exists l. now rewrite <- app_assoc. }
  destruct Hparts as [q Hq].
  unfold resolve. rewrite Hhost, Hq, last_two_app. cbn [negb].
  rewrite length_app. cbn [List.length].
  destruct (Nat.ltb_spec (List.length q + 2) 2); [lia|reflexivity].
Qed.

Lemma resolve_canonical_witness :
  resolve "https://github.com/acme/widget" = inr ("acme", "widget").
Proof.
  apply (resolve_canonical "https://github.com" "acme" "widget");
    (discriminate || reflexivity).
Defined.

(** X2: slashes at either end of a link change nothing: the link with one
    more slash in front or behind resolves, or is skipped, exactly as the
    link itself. *)
Theorem resolve_ignores_outer_slashes (repo_url : string) :
  resolve (String "/" repo_url) = resolve repo_url /\
  resolve (repo_url ++ "/") = resolve repo_url.
Proof.
  split.
  - reflexivity.
  - unfold resolve, host_matches, parts.
    rewrite contains_snoc by (discriminate || reflexivity).
    now rewrite strip_snoc by reflexivity.
Qed.

(** X3: what the resolver hands to the API is always well formed: the
    owner and the name hold no slash and the name is not empty, so the
    full name of the repository has exactly one slash. *)
Theorem resolve_well_formed (repo_url owner_name repo_name : string) :
  resolve repo_url = inr (owner_name, repo_name) ->
  PyStr.count "/" owner_name = 0 /\
  PyStr.count "/" repo_name = 0 /\
  repo_name <> EmptyString /\
  PyStr.count "/" (repo_full_name owner_name repo_name) = 1.
Proof.
  intros Hres.
  assert (Hparts : exists q, parts repo_url = q ++ [owner_name; repo_name]).
  { unfold resolve in Hres.
    destruct (negb (host_matches repo_url)); [discriminate|].
    destruct (Nat.ltb_spec (List.length (parts repo_url)) 2) as [|Hge];
      [discriminate|].
    destruct (last_two_spec _ Hge) as (q & a & b & Hq & Hl).
    rewrite Hl in Hres. injection Hres as <- <-. now exists q. }
  destruct Hparts as [q Hq].
  assert (Hco : PyStr.count "/" owner_name = 0).
  { apply (split_parts_clean "/" (PyStr.strip PyStr.is_slash repo_url)).
    fold (parts repo_url). rewrite Hq. apply in_or_app. right. now left. }
  assert (Hcn : PyStr.count "/" repo_name = 0).
  { apply (split_parts_clean "/" (PyStr.strip PyStr.is_slash repo_url)).
    fold (parts repo_url). rewrite Hq. apply in_or_app. right. right. now left. }
  split; [exact Hco|]. split; [exact Hcn|]. split.
  - intros ->. unfold parts in Hq.
    change (q ++ [owner_name; EmptyString])
      with (q ++ [owner_name] ++ [EmptyString]) in Hq.
    rewrite app_assoc in Hq.
    destruct (split_last_empty _ _ _ Hq) as [He|[s' Hs]].
    + rewrite He in Hq. simpl in Hq.
      apply (f_equal (@List.length _)) in Hq.
      rewrite !length_app in Hq. simpl in Hq. lia.
    + unfold PyStr.strip in Hs. apply rstrip_last in Hs. discriminate.
  - unfold repo_full_name. rewrite !count_append, Hco, Hcn. reflexivity.
Qed.

Lemma resolve_well_formed_witness :
  PyStr.count "/" (repo_full_name "issues" "5") = 1.
Proof.
  apply (resolve_well_formed "https://github.com/acme/widget/issues/5"
           "issues" "5" eq_refl).
Defined.

(** ** What a sweep writes *)

Section SweepOutput.

Variable w : world.

Lemma counted_filter (todo : list WorkItem) :
  counted todo = List.length (filter resolves todo).
Proof.
  induction todo as [|x todo IH]; [reflexivity|].
  simpl. unfold resolves at 1.
  destruct (resolve (github_link x)); simpl; now rewrite IH.
Qed.


Lemma item_events_appended total i repo_info :
  map (fun r => (rr_id r, rr_link r))
      (appended (snd (item_events w total i repo_info))) =
  if resolves repo_info
  then [(item_id repo_info, github_link repo_info)] else [].
Proof.
  unfold resolves.
  destruct (resolve (github_link repo_info)) as [reason|[o n]] eqn:H.
  - destruct (item_events_skipped w total i _ _ H) as (m & -> & _). reflexivity.
  - rewrite (item_events_resolved w total i _ _ _ H). cbn [snd].
    change (?x :: ?l ++ ?r) with ([x] ++ l ++ r).
    rewrite !appended_app, (silent_appended (snd _)) by apply fetch_silent.
    cbn. rewrite fetch_keeps_id.
    destruct (fetch_keeps_target (get_repo w) (now w i) (repo_full_name o n)
                (result_data (item_id repo_info) (github_link repo_info) o n))
      as (Hl & _). now rewrite Hl.
Qed.

Lemma item_events_saved total i repo_info :
  saved (snd (item_events w total i repo_info)) =
  if resolves repo_info then [item_id repo_info] else [].
Proof.
  unfold resolves.
  destruct (resolve (github_link repo_info)) as [reason|[o n]] eqn:H.
  - destruct (item_events_skipped w total i _ _ H) as (m & -> & _). reflexivity.
  - rewrite (item_events_resolved w total i _ _ _ H). cbn [snd].
    change (?x :: ?l ++ ?r) with ([x] ++ l ++ r).
    rewrite !saved_app, (silent_saved (snd _)) by apply fetch_silent.
    reflexivity.
Qed.

Lemma sweep_events_appended total i todo :
  map (fun r => (rr_id r, rr_link r)) (appended (sweep_events w total i todo)) =
  map (fun x => (item_id x, github_link x)) (filter resolves todo).
Proof.
  revert i. induction todo as [|x todo IH]; intros i; [reflexivity|].
  cbn [sweep_events filter]. rewrite appended_app, map_app, IH.
  rewrite item_events_appended. destruct (resolves x); reflexivity.
Qed.

Lemma sweep_events_saved total i todo :
  saved (sweep_events w total i todo) = map item_id (filter resolves todo).
Proof.
  revert i. induction todo as [|x todo IH]; intros i; [reflexivity|].
  cbn [sweep_events filter]. rewrite saved_app, IH.
  rewrite item_events_saved. destruct (resolves x); reflexivity.
Qed.

Lemma fetch_calls_bound g t name d0 :
  1 <= List.length (calls (snd (fetch g t name (d0, [])))) <= 4.
Proof. run_fetch g t name; simpl; lia. Qed.

Lemma item_events_calls total i repo_info :
  let n := List.length (calls (snd (item_events w total i repo_info))) in
  if resolves repo_info then 1 <= n <= 4 else n = 0.
Proof.
  unfold resolves.
  destruct (resolve (github_link repo_info)) as [reason|[o n]] eqn:H.
  - destruct (item_events_skipped w total i _ _ H) as (m & -> & _). reflexivity.
  - rewrite (item_events_resolved w total i _ _ _ H). cbn [snd].
    change (?x :: ?l ++ ?r) with ([x] ++ l ++ r).
    rewrite !calls_app. cbn [calls app]. rewrite app_nil_r.
    apply fetch_calls_bound.
Qed.

Lemma sweep_events_calls total i todo :
  counted todo <= List.length (calls (sweep_events w total i todo))
    <= 4 * counted todo.
Proof.
  revert i. induction todo as [|x todo IH]; intros i; [simpl; lia|].
  cbn [sweep_events counted]. rewrite calls_app, length_app.
  pose proof (item_events_calls total i x) as Hx. cbv zeta in Hx.
  specialize (IH (S i)). unfold resolves in Hx.
  destruct (resolve (github_link x)); lia.
Qed.

End SweepOutput.

Lemma replay_output (fs : files) (tr : list event) :
  output_file (replay fs tr) = output_file fs ++ appended tr.
Proof.
  revert fs. induction tr as [|e tr IH]; intros fs.
  - simpl. now rewrite app_nil_r.
  - change (replay fs (e :: tr)) with (replay (apply_event fs e) tr).
    rewrite IH. destruct e; simpl; try reflexivity. now rewrite <- app_assoc.
Qed.

Lemma well_paired_saved (tr : list event) :
  well_paired tr = true -> saved tr = map rr_id (appended tr).
Proof.
  remember (List.length tr) as n eqn:Hn.
  revert tr Hn. induction n as [n IH] using lt_wf_ind.
  intros tr Hn Hwp. destruct tr as [|e tr]; [reflexivity|].
  destruct e as [m| | |r| |]; simpl in Hwp |- *;
    try (apply (IH (List.length tr)); simpl in Hn; [lia|reflexivity|exact Hwp]).
  - destruct tr as [|e' tr]; [discriminate|].
    destruct e'; try discriminate. simpl.
    apply andb_true_iff in Hwp as [Hid Hwp]. apply Z.eqb_eq in Hid.
    rewrite Hid. f_equal.
    apply (IH (List.length tr)); simpl in Hn; [lia|reflexivity|exact Hwp].
  - discriminate.
Qed.

Lemma skipped_lines_calls (ls : list string) :
  calls (map (fun l => Print (MsgSkippedLine l)) ls) = [].
Proof. induction ls; simpl; auto. Qed.

(** The remote calls of a run are those of its sweep. *)
Lemma main_calls (w : world) user repos warnings :
  login w = Ok user ->
  repos_to_crawl w = Some (repos, warnings) ->
  calls (events (main w)) =
  calls (sweep_events w (List.length repos) (offset w) (skipn (offset w) repos)).
Proof.
  intros Hlogin Hload.
  pose proof (offset_loaded w _ _ Hload) as Ho.
  unfold main. rewrite Hlogin, Hload.
  destruct (start_index repos (state_file (disk w))) as [start resume_log] eqn:Hs.
  cbn [fst] in Ho. subst start.
  assert (Hr : calls resume_log = []).
  { unfold start_index in Hs. destruct (state_file (disk w)) as [[|]|];
      injection Hs as _ <-; reflexivity. }
  assert (Hw : calls warnings = []).
  { rewrite repos_to_crawl_spec in Hload.
    destruct (input_file w); [|discriminate]. injection Hload as _ <-.
    apply skipped_lines_calls. }
  rewrite main_loop_sweep. unfold finish. rewrite sweep_log. cbn [log].
  set (sw := sweep_events _ _ _ _).
  destruct (repo_id _);
    [destruct (_ <=? _)%nat; [destruct (state_file (replay _ _))|]|];
    cbn [events]; rewrite !calls_app, Hw, Hr; cbn [calls app];
    rewrite ?app_nil_r; reflexivity.
Qed.

(** ** Further properties of a run *)











Lemma main_appended (w : world) user repos warnings :
  login w = Ok user ->
  repos_to_crawl w = Some (repos, warnings) ->
  appended (events (main w)) =
  appended (sweep_events w (List.length repos) (offset w)
                         (skipn (offset w) repos)).
Proof.
  intros Hlogin Hload.
  destruct (main_started_events w _ _ _ Hlogin Hload)
    as (pre & post & Hpre & Hpost & ->).
  rewrite !appended_app, (silent_appended pre Hpre),
    (closing_appended post Hpost).
  now rewrite app_nil_r.
Qed.

Lemma fetch_success_record g t name id url o n :
  first_failure g t name = None ->
  let st := fetch g t name (result_data id url o n, []) in
  exists repo,
    g name = Ok repo /\
    fully_fetched repo (t - thirty_days)%Z (fst st) /\
    calls (snd st) = all_calls name t.
Proof.
  run_fetch g t name; intros Hf; try discriminate.
  exists repo. split; [reflexivity|]. split; [|reflexivity].
  unfold fully_fetched. cbn -[thirty_days Z.sub].
  repeat split; try assumption; try reflexivity; eexists; split;
    (eassumption || reflexivity).
Qed.

(** X8: when all four requests of a dispatched, resolved item succeed, the
    run appends exactly one record for it, with every metric holding what
    the repository object answered and with no error, after exactly the
    four requests. *)
Theorem successful_item_record (w : world) (j : nat) (repo_info : WorkItem)
    (owner_name repo_name : string) :
  In (j, repo_info) (dispatched (events (main w))) ->
  resolve (github_link repo_info) = inr (owner_name, repo_name) ->
  first_failure (get_repo w) (now w j) (repo_full_name owner_name repo_name)
    = None ->
  exists before tr after r repo,
    events (main w) = before ++ tr ++ after /\
    tr = snd (item_events w (List.length (loaded w)) j repo_info) /\
    appended tr = [r] /\
    rr_id r = item_id repo_info /\
    rr_link r = github_link repo_info /\
    rr_owner r = owner_name /\
    rr_repo_name r = repo_name /\
    get_repo w (repo_full_name owner_name repo_name) = Ok repo /\
    fully_fetched repo (now w j - thirty_days)%Z r /\
    calls tr = all_calls (repo_full_name owner_name repo_name) (now w j).
Proof.
  intros Hin Hres Hok.
  destruct (main_item_events w j repo_info Hin) as (before & after & Heq).
  exists before. eexists. exists after.
  rewrite (item_events_resolved w _ j _ _ _ Hres) in Heq |- *. cbn [snd] in *.
  set (d0 := result_data _ _ _ _) in *.
  set (name := repo_full_name owner_name repo_name) in *.
  destruct (fetch_success_record (get_repo w) (now w j) name
              (item_id repo_info) (github_link repo_info)
              owner_name repo_name Hok) as (repo & Hrepo & Hfull & Hcalls).
  fold d0 in Hfull, Hcalls.
  exists (fst (fetch (get_repo w) (now w j) name (d0, []))), repo.
  split; [exact Heq|]. split; [reflexivity|].
  split.
  { change (?x :: ?l ++ ?r) with ([x] ++ l ++ r).
    rewrite !appended_app.
    rewrite (silent_appended (snd _)) by apply fetch_silent. reflexivity. }
  split; [apply fetch_keeps_id|].
  destruct (fetch_keeps_target (get_repo w) (now w j) name d0) as (Hl & Ho & Hn).
  split; [exact Hl|]. split; [exact Ho|]. split; [exact Hn|].
  split; [exact Hrepo|]. split; [exact Hfull|].
  change (?x :: ?l ++ ?r) with ([x] ++ l ++ r).
  rewrite !calls_app. cbn [calls app]. now rewrite app_nil_r.
Qed.

Lemma successful_item_record_witness :
  exists r,
    appended (snd (item_events Scenario.two_items 2 0 Scenario.item1)) = [r] /\
    fully_fetched Scenario.widget (1700000000 - thirty_days)%Z r.
Proof.
  assert (Hin : In (0, Scenario.item1)
                   (dispatched (events (main Scenario.two_items))))
    by (left; reflexivity).
  destruct (successful_item_record Scenario.two_items 0 Scenario.item1
              "acme" "widget" Hin eq_refl eq_refl)
    as (before & tr & after & r & repo & _ & -> & Ha & _ & _ & _ & _ & Hrepo & Hf & _).
  exists r. split; [exact Ha|].
  injection Hrepo as <-. exact Hf.
Defined.

(** ** The clean-up and the exit status *)







Lemma main_saved (w : world) user repos warnings :
  login w = Ok user ->
  repos_to_crawl w = Some (repos, warnings) ->
  saved (events (main w)) =
  map item_id (filter resolves (skipn (offset w) repos)).
Proof.
  intros Hlogin Hload.
  destruct (main_started_events w _ _ _ Hlogin Hload)
    as (pre & post & Hpre & Hpost & ->).
  rewrite !saved_app, (silent_saved pre Hpre), (closing_saved post Hpost).
  rewrite app_nil_r. apply sweep_events_saved.
Qed.

(** Failures the handlers can format are isolated: the same items are
    dispatched, the same ids are saved, the state file and the process end
    the same way, whatever such an API answers. *)
Lemma same_sweep_whatever_answers (w : world)
    (g : string -> result Repository) (clock : nat -> Z) :
  dispatched (events (main (with_api w g clock)))
    = dispatched (events (main w)) /\
  saved (events (main (with_api w g clock))) = saved (events (main w)) /\
  state_file (final_files (with_api w g clock))
    = state_file (final_files w) /\
  ending (main (with_api w g clock)) = ending (main w).
Proof.
  set (w' := with_api w g clock).
  assert (Ho : offset w' = offset w) by reflexivity.
  destruct (login w) as [user|e] eqn:Hlogin.
  - destruct (repos_to_crawl w) as [[repos warnings]|] eqn:Hload.
    + assert (Hlogin' : login w' = Ok user) by exact Hlogin.
      assert (Hload' : repos_to_crawl w' = Some (repos, warnings)) by exact Hload.
      rewrite (main_dispatched w' _ _ _ Hlogin' Hload'),
        (main_dispatched w _ _ _ Hlogin Hload),
        (main_saved w' _ _ _ Hlogin' Hload'),
        (main_saved w _ _ _ Hlogin Hload), Ho.
      split; [reflexivity|]. split; [reflexivity|].
      destruct (Nat.le_gt_cases (List.length repos) (offset w)) as [H|H].
      * destruct (main_nothing_swept w _ _ _ Hlogin Hload H) as (tr & Hs & Hm).
        destruct (main_nothing_swept w' _ _ _ Hlogin' Hload' H)
          as (tr' & Hs' & Hm').
        unfold final_files. rewrite Hm, Hm'. cbn [events ending].
        rewrite (silent_replay tr' _ Hs'), (silent_replay tr _ Hs).
        split; reflexivity.
      * destruct (main_swept w _ _ _ Hlogin Hload H) as [He Hf].
        destruct (main_swept w' _ _ _ Hlogin' Hload' H) as [He' Hf'].
        unfold final_files. rewrite He, He', Hf, Hf', Ho.
        split; reflexivity.
    + unfold final_files, main. cbn [w' with_api login].
      change (repos_to_crawl w') with (repos_to_crawl w).
      rewrite Hlogin, Hload. repeat split.
  - unfold final_files, main. cbn [w' with_api login]. rewrite Hlogin.
    repeat split.
Qed.

(** ** Crash and restart *)

Section Restart.







End Restart.






(** * Properties of the JOSS scraper's numbering *)

Section JossNumbering.

Lemma total_idx_window (current_page : Z) (idx : nat) :
  idx < 20 ->
  ((current_page - 1) * 20 < Joss.total_idx current_page (Z.of_nat idx)
   <= current_page * 20)%Z.
Proof. intros H. unfold Joss.total_idx. lia. Qed.

Lemma filter_seq_sorted (f : nat -> bool) (a n : nat) :
  StronglySorted lt (filter f (seq a n)) /\
  Forall (fun i => a <= i < a + n) (filter f (seq a n)).
Proof.
  revert a. induction n as [|n IH]; intros a; simpl.
  - split; constructor.
  - destruct (IH (S a)) as [Hs Hb].
    assert (Hb' : Forall (fun i => a <= i < a + S n) (filter f (seq (S a) n))).
    { eapply Forall_impl; [|exact Hb]. simpl. intros i Hi. lia. }
    destruct (f a); [|now split].
    split.
    + constructor; [exact Hs|].
      eapply Forall_impl; [|exact Hb]. simpl. intros i Hi. lia.
    + constructor; [lia|exact Hb'].
Qed.

Lemma page_ids_sorted (current_page : Z) (count : nat) (extracted : nat -> bool) :
  StronglySorted Z.lt (Joss.page_ids current_page count extracted) /\
  Forall (fun id => ((current_page - 1) * 20 < id <= current_page * 20)%Z)
         (Joss.page_ids current_page count extracted).
Proof.
  unfold Joss.page_ids, range. rewrite Nat.sub_0_r.
  destruct (filter_seq_sorted extracted 0 (Nat.min 20 count)) as [Hs Hb].
  induction Hs as [|i l Hs IH Hlt]; simpl; [split; constructor|].
  inversion Hb as [|? ? Hi Hb']; subst.
  destruct (IH Hb') as [IHs IHb].
  split.
  - constructor; [exact IHs|].
    rewrite Forall_map. rewrite Forall_forall in Hlt |- *.
    intros k Hk. specialize (Hlt k Hk). unfold Joss.total_idx. lia.
  - constructor; [|exact IHb].
    apply total_idx_window. lia.
Qed.

Lemma StronglySorted_app_Z (a b : list Z) :
  StronglySorted Z.lt a -> StronglySorted Z.lt b ->
  (forall x y, In x a -> In y b -> (x < y)%Z) ->
  StronglySorted Z.lt (a ++ b).
Proof.
  intros Ha Hb Hab. induction Ha as [|x a Ha IH Hx]; simpl; [exact Hb|].
  constructor.
  - apply IH. intros u v Hu Hv. apply Hab; [now right|exact Hv].
  - apply Forall_app. split; [exact Hx|].
    apply Forall_forall. intros y Hy. apply Hab; [now left|exact Hy].
Qed.

Lemma scrape_ids_sorted (current_page : Z) (pages : list (nat * (nat -> bool))) :
  StronglySorted Z.lt (Joss.scrape_ids current_page pages) /\
  Forall (fun id => ((current_page - 1) * 20 < id)%Z)
         (Joss.scrape_ids current_page pages).
Proof.
  revert current_page.
  induction pages as [|[count extracted] pages IH]; intros current_page; simpl.
  - split; constructor.
  - destruct (page_ids_sorted current_page count extracted) as [Hs Hb].
    destruct (IH (current_page + 1)%Z) as [IHs IHb].
    split.
    + apply StronglySorted_app_Z; [exact Hs|exact IHs|].
      intros x y Hx Hy.
      rewrite Forall_forall in Hb, IHb.
      specialize (Hb x Hx). specialize (IHb y Hy). lia.
    + apply Forall_app. split.
      * eapply Forall_impl; [|exact Hb]. simpl. intros id Hid. lia.
      * eapply Forall_impl; [|exact IHb]. simpl. intros id Hid. lia.
Qed.

Lemma sorted_NoDup (l : list Z) : StronglySorted Z.lt l -> NoDup l.
Proof.
  induction 1 as [|x l Hs IH Hx]; constructor; [|exact IH].
  intros Hin. rewrite Forall_forall in Hx. specialize (Hx x Hin). lia.
Qed.

End JossNumbering.

(** X15: the number a paper gets determines its page and its position on
    the page: for a position below 20, the page is the number minus one
    divided by 20, plus one, and the position is the remainder; so two
    papers with the same number are on the same page at the same
    position. *)
Theorem total_idx_decodes (current_page idx : Z) :
  (0 <= idx < 20)%Z ->
  ((Joss.total_idx current_page idx - 1) / 20 + 1 = current_page)%Z /\
  ((Joss.total_idx current_page idx - 1) mod 20 = idx)%Z /\
  (forall page' idx',
      (0 <= idx' < 20)%Z ->
      Joss.total_idx page' idx' = Joss.total_idx current_page idx ->
      page' = current_page /\ idx' = idx).
Proof.
  intros Hi. unfold Joss.total_idx.
  replace ((current_page - 1) * 20 + (idx + 1) - 1)%Z
    with (idx + (current_page - 1) * 20)%Z by lia.
  rewrite Z.div_add, Z.mod_add by lia.
  rewrite Z.div_small, Z.mod_small by lia.
  split; [lia|]. split; [reflexivity|].
  intros page' idx' Hi' Heq. lia.
Qed.

Lemma total_idx_decodes_witness :
  ((Joss.total_idx 3 4 - 1) / 20 + 1 = 3)%Z /\
  ((Joss.total_idx 3 4 - 1) mod 20 = 4)%Z.
Proof.
  destruct (total_idx_decodes 3 4) as (H1 & H2 & _); [lia|].
  split; [exact H1|exact H2].
Defined.

(** X16: whatever the pages show and whichever papers fail, the numbers
    of the records the scraper collects increase strictly from one record
    to the next; no two records share a number, a page contributes at most
    twenty of them, all within its own window of twenty numbers. *)
Theorem scraped_ids_are_distinct (current_page : Z)
    (pages : list (nat * (nat -> bool))) :
  StronglySorted Z.lt (Joss.scrape_ids current_page pages) /\
  NoDup (Joss.scrape_ids current_page pages) /\
  (forall count extracted,
      List.length (Joss.page_ids current_page count extracted) <= 20 /\
      Forall (fun id => ((current_page - 1) * 20 < id <= current_page * 20)%Z)
             (Joss.page_ids current_page count extracted)).
Proof.
  destruct (scrape_ids_sorted current_page pages) as [Hs _].
  split; [exact Hs|]. split; [now apply sorted_NoDup|].
  intros count extracted. split; [|apply page_ids_sorted].
  unfold Joss.page_ids, range. rewrite length_map, Nat.sub_0_r.
  pose proof (filter_length_le extracted (seq 0 (Nat.min 20 count))) as H.
  rewrite length_seq in H. lia.
Qed.

(** * Properties of the report generator's loading *)

Section ReportLoading.

Context {DF : Type}.
Variable read_json : string -> Report.read_json_result DF.

Lemma safe_read_skips (before rest : list string) :
  (forall e, In e before -> read_json e = Report.UnicodeDecodeError) ->
  Report.safe_read_jsonl read_json (before ++ rest) =
  let '(tried, logs, res) := Report.safe_read_jsonl read_json rest in
  (before ++ tried, logs, res).
Proof.
  induction before as [|e before IH]; intros H.
  - simpl. now destruct (Report.safe_read_jsonl read_json rest) as [[? ?] ?].
  - cbn [app Report.safe_read_jsonl].
    rewrite (H e (or_introl eq_refl)), IH by (intros x Hx; apply H; now right).
    now destruct (Report.safe_read_jsonl read_json rest) as [[? ?] ?].
Qed.

Lemma safe_read_none (encoding_list : list string) :
  snd (Report.safe_read_jsonl read_json encoding_list) = Report.Return None ->
  forall e, In e encoding_list -> read_json e = Report.UnicodeDecodeError.
Proof.
  induction encoding_list as [|x l IH]; simpl; [tauto|].
  destruct (read_json x) eqn:E; try discriminate.
  destruct (Report.safe_read_jsonl read_json l) as [[tried logs] res].
  simpl in *. intros Hres e [<-|Hin]; [exact E|now apply IH].
Qed.

End ReportLoading.

(** X17: the loader tries the encodings in the order given and the first
    one that does not fail to decode settles the call: its frame is
    returned, or its error is logged and raised again, and no later
    encoding is tried; None is returned exactly when every encoding fails
    to decode (an empty list of encodings included). *)
Theorem safe_read_first_decides (DF : Type)
    (read_json : string -> Report.read_json_result DF)
    (encoding_list : list string) :
  (forall before encoding rest,
      encoding_list = before ++ encoding :: rest ->
      (forall e, In e before -> read_json e = Report.UnicodeDecodeError) ->
      read_json encoding <> Report.UnicodeDecodeError ->
      Report.safe_read_jsonl read_json encoding_list =
      match read_json encoding with
      | Report.OtherError e =>
          (before ++ [encoding], [Report.LogReadFailed e], Report.Reraise e)
      | Report.Loaded df =>
          (before ++ [encoding], [Report.LogLoaded encoding],
           Report.Return (Some df))
      | Report.UnicodeDecodeError =>
          (encoding_list, [Report.LogNoEncoding], Report.Return None)
      end) /\
  (snd (Report.safe_read_jsonl read_json encoding_list) = Report.Return None <->
   forall e, In e encoding_list -> read_json e = Report.UnicodeDecodeError) /\
  ((forall e, In e encoding_list -> read_json e = Report.UnicodeDecodeError) ->
   Report.safe_read_jsonl read_json encoding_list =
   (encoding_list, [Report.LogNoEncoding], Report.Return None)).
Proof.
  assert (Hall : (forall e, In e encoding_list ->
                            read_json e = Report.UnicodeDecodeError) ->
                 Report.safe_read_jsonl read_json encoding_list =
                 (encoding_list, [Report.LogNoEncoding], Report.Return None)).
  { intros H.
    rewrite <- (app_nil_r encoding_list) at 1.
    rewrite (safe_read_skips read_json encoding_list [] H).
    simpl. now rewrite app_nil_r. }
  split; [|split; [split|exact Hall]].
  - intros before encoding rest -> Hbefore Hdec.
    rewrite (safe_read_skips read_json before _ Hbefore).
    cbn [Report.safe_read_jsonl].
    destruct (read_json encoding); [reflexivity|contradiction|reflexivity].
  - apply safe_read_none.
  - intros H. now rewrite (Hall H).
Qed.

Lemma safe_read_first_decides_witness :
  Report.safe_read_jsonl
    (fun enc => if String.eqb enc "utf-8"
                then @Report.UnicodeDecodeError nat
                else if String.eqb enc "gbk" then Report.Loaded 7
                else Report.OtherError "unreachable")
    ["utf-8"; "gbk"; "utf-8-sig"]
  = (["utf-8"; "gbk"], [Report.LogLoaded "gbk"], Report.Return (Some 7)).
Proof.
  destruct (safe_read_first_decides nat
              (fun enc => if String.eqb enc "utf-8"
                          then @Report.UnicodeDecodeError nat
                          else if String.eqb enc "gbk" then Report.Loaded 7
                          else Report.OtherError "unreachable")
              ["utf-8"; "gbk"; "utf-8-sig"]) as (H & _ & _).
  apply (H ["utf-8"] "gbk" ["utf-8-sig"] eq_refl).
  - intros e [<-|[]]. reflexivity.
  - discriminate.
Defined.

Section ReportValidation.

Context {cell : Type}.

Lemma null_count_zero (df : Report.DataFrame cell) (col : string) :
  Report.null_count df col = 0 <->
  forall row, In row (Report.rows df) -> Report.is_null row col = false.
Proof.
  unfold Report.null_count. generalize (Report.rows df) as l.
  induction l as [|r l IH]; simpl; [tauto|].
  destruct (Report.is_null r col) eqn:E; simpl; split.
  - discriminate.
  - intros H. specialize (H r (or_introl eq_refl)). congruence.
  - intros H row [<-|Hin]; [exact E|now apply IH].
  - intros H. apply IH. intros row Hin. apply H. now right.
Qed.

Lemma list_sum_zero (l : list nat) :
  list_sum l = 0 <-> forall n, In n l -> n = 0.
Proof.
  induction l as [|x l IH]; simpl; [tauto|]. split.
  - intros H n [<-|Hin]; [lia|]. apply IH; [lia|exact Hin].
  - intros H. rewrite (H x (or_introl eq_refl)).
    apply IH. intros n Hn. apply H. now right.
Qed.

Lemma null_counts_zero (df : Report.DataFrame cell) (required : list string) :
  list_sum (map (Report.null_count df) required) = 0 <->
  forall row, In row (Report.rows df) ->
    forallb (fun col => negb (Report.is_null row col)) required = true.
Proof.
  rewrite list_sum_zero. split.
  - intros H row Hrow. apply forallb_forall. intros col Hcol.
    assert (Hz : Report.null_count df col = 0).
    { apply H. apply in_map_iff. now exists col. }
    rewrite null_count_zero in Hz. now rewrite (Hz row Hrow).
  - intros H n Hn. apply in_map_iff in Hn as (col & <- & Hcol).
    apply null_count_zero. intros row Hrow.
    specialize (H row Hrow). rewrite forallb_forall in H.
    specialize (H col Hcol). now destruct (Report.is_null row col).
Qed.

Lemma filter_all (A : Type) (f : A -> bool) (l : list A) :
  filter f l = l <-> forall x, In x l -> f x = true.
Proof.
  split.
  - intros H x Hx. rewrite <- H in Hx. now apply filter_In in Hx.
  - induction l as [|y l IH]; intros H; [reflexivity|]. simpl.
    rewrite (H y (or_introl eq_refl)). f_equal. apply IH.
    intros x Hx. apply H. now right.
Qed.

Lemma filter_twice (A : Type) (f : A -> bool) (l : list A) :
  filter f (filter f l) = filter f l.
Proof.
  apply filter_all. intros x Hx. now apply filter_In in Hx.
Qed.

Lemma report_lines_nil (df : Report.DataFrame cell) (required : list string) :
  flat_map (Report.report_line df) required = [] <->
  list_sum (map (Report.null_count df) required) = 0.
Proof.
  induction required as [|col required IH]; [simpl; tauto|].
  cbn [flat_map map list_sum fold_right]. fold (list_sum (map (Report.null_count df) required)).
  unfold Report.report_line at 1.
  destruct (Nat.ltb_spec 0 (Report.null_count df col)) as [Hc|Hc].
  - split; [discriminate|lia].
  - cbn [app]. rewrite IH. lia.
Qed.

Lemma report_nulls_all (df : Report.DataFrame cell)
    (required cols : list string) (printed : list (string * nat)) :
  (forall c, In c cols -> Report.selected df required c <= 1) ->
  Report.report_nulls df required cols printed =
  (printed ++ flat_map (Report.report_line df) cols, None).
Proof.
  revert printed. induction cols as [|col cols IH]; intros printed H.
  - cbn. now rewrite app_nil_r.
  - cbn [Report.report_nulls flat_map].
    destruct (Nat.ltb_spec 1 (Report.selected df required col)) as [Hc|Hc].
    + specialize (H col (or_introl eq_refl)). lia.
    + rewrite IH by (intros c Hin; apply H; now right).
      now rewrite <- app_assoc.
Qed.

Lemma report_nulls_stop (df : Report.DataFrame cell)
    (required before after : list string) (col : string)
    (printed : list (string * nat)) :
  (forall c, In c before -> Report.selected df required c <= 1) ->
  1 < Report.selected df required col ->
  Report.report_nulls df required (before ++ col :: after) printed =
  (printed ++ flat_map (Report.report_line df) before, Some col).
Proof.
  revert printed. induction before as [|b before IH]; intros printed H Hcol.
  - cbn [app Report.report_nulls flat_map].
    destruct (Nat.ltb_spec 1 (Report.selected df required col)); [|lia].
    now rewrite app_nil_r.
  - cbn [app Report.report_nulls flat_map].
    destruct (Nat.ltb_spec 1 (Report.selected df required b)) as [Hb|Hb].
    + specialize (H b (or_introl eq_refl)). lia.
    + rewrite IH by ((intros c Hin; apply H; now right) || exact Hcol).
      now rewrite <- app_assoc.
Qed.

(** The loop either reports every column, or stops at the first column
    that selects more than one. *)
Lemma report_nulls_split (required cols : list string)
    (df : Report.DataFrame cell) :
  (forall c, In c cols -> Report.selected df required c <= 1) \/
  exists before col after,
    cols = before ++ col :: after /\
    (forall c, In c before -> Report.selected df required c <= 1) /\
    1 < Report.selected df required col.
Proof.
  induction cols as [|c cols IH]; [left; intros c []|].
  destruct (Nat.ltb_spec 1 (Report.selected df required c)) as [Hc|Hc].
  - right. exists [], c, cols. split; [reflexivity|].
    split; [intros x []|exact Hc].
  - destruct IH as [Hall|(before & col & after & -> & Hb & Hcol)].
    + left. intros x [<-|Hx]; [exact Hc|now apply Hall].
    + right. exists (c :: before), col, after. split; [reflexivity|].
      split; [|exact Hcol]. intros x [<-|Hx]; [exact Hc|now apply Hb].
Qed.

Lemma report_nulls_cases (df : Report.DataFrame cell)
    (required cols : list string) :
  ((forall c, In c cols -> Report.selected df required c <= 1) /\
   Report.report_nulls df required cols [] =
   (flat_map (Report.report_line df) cols, None)) \/
  exists before col after,
    cols = before ++ col :: after /\
    (forall c, In c before -> Report.selected df required c <= 1) /\
    1 < Report.selected df required col /\
    Report.report_nulls df required cols [] =
    (flat_map (Report.report_line df) before, Some col).
Proof.
  destruct (report_nulls_split required cols df)
    as [Hall|(before & col & after & -> & Hb & Hcol)].
  - left. split; [exact Hall|]. now rewrite report_nulls_all.
  - right. exists before, col, after. split; [reflexivity|].
    split; [exact Hb|]. split; [exact Hcol|].
    now rewrite report_nulls_stop.
Qed.

Lemma missing_cols_spec (df : Report.DataFrame cell)
    (required : list string) (col : string) :
  In col (filter (fun col => negb (existsb (String.eqb col) (Report.columns df)))
                 required) <->
  In col required /\ ~ In col (Report.columns df).
Proof.
  rewrite filter_In, negb_true_iff.
  split; intros [H1 H2]; (split; [exact H1|]).
  - intros Hc. assert (Ht : existsb (String.eqb col) (Report.columns df) = true).
    { apply existsb_exists. exists col. split; [exact Hc|apply String.eqb_refl]. }
    congruence.
  - destruct (existsb (String.eqb col) (Report.columns df)) eqn:E; [|reflexivity].
    exfalso. apply existsb_exists in E as (c & Hc & Heq).
    apply String.eqb_eq in Heq. subst c. contradiction.
Qed.

Lemma none_missing (df : Report.DataFrame cell) (required : list string) :
  filter (fun col => negb (existsb (String.eqb col) (Report.columns df)))
         required = [] <->
  forall col, In col required -> In col (Report.columns df).
Proof.
  split.
  - intros Hnil col Hcol.
    destruct (in_dec string_dec col (Report.columns df)) as [Hin|Hin];
      [exact Hin|].
    exfalso. assert (H : In col []); [|exact H].
    rewrite <- Hnil. apply missing_cols_spec. now split.
  - intros H.
    destruct (filter _ required) as [|c m] eqn:E; [reflexivity|].
    exfalso. assert (Hc : In c (c :: m)) by now left.
    rewrite <- E in Hc. apply missing_cols_spec in Hc as [Hc Hn].
    exact (Hn (H c Hc)).
Qed.

(** A list with a repetition has an element that occurs twice. *)
Lemma repeated_element (l : list string) :
  ~ NoDup l -> exists x, In x l /\ 1 < count_occ string_dec l x.
Proof.
  induction l as [|y l IH]; intros H; [exfalso; apply H; constructor|].
  destruct (in_dec string_dec y l) as [Hin|Hin].
  - exists y. split; [now left|].
    cbn [count_occ]. destruct (string_dec y y) as [_|Hne]; [|congruence].
    apply (count_occ_In string_dec) in Hin. lia.
  - destruct IH as (x & Hx & Hc).
    { intros Hnd. apply H. now constructor. }
    exists x. split; [now right|].
    cbn [count_occ]. destruct (string_dec y x); lia.
Qed.

End ReportValidation.

(** X18: validation fails in exactly two ways.  It raises the error of
    line 107 exactly when a required column is missing from the frame,
    and the error names the required columns that are missing, in the
    order they are required.  Otherwise it raises at line 113 exactly
    when some required column holds a null and some required label
    selects more than one column, which for a frame with distinct labels
    means that a required column is listed twice; the loop stops at the
    first such label, after the lines of the columns before it.  In every
    other case it returns a frame. *)
Theorem validate_data_missing_columns (cell : Type)
    (df : Report.DataFrame cell) (required_columns : list string) :
  (filter (fun col => negb (existsb (String.eqb col) (Report.columns df)))
          required_columns <> [] ->
   Report.validate_data df required_columns =
   Report.ValueError
     (filter (fun col => negb (existsb (String.eqb col) (Report.columns df)))
             required_columns)) /\
  ((exists m, Report.validate_data df required_columns = Report.ValueError m) <->
   exists col, In col required_columns /\ ~ In col (Report.columns df)) /\
  ((exists printed col,
      Report.validate_data df required_columns =
      Report.AmbiguousTruthValue printed col) <->
   (forall col, In col required_columns -> In col (Report.columns df)) /\
   0 < list_sum (map (Report.null_count df) required_columns) /\
   exists col, In col required_columns /\
               1 < Report.selected df required_columns col) /\
  (NoDup (Report.columns df) ->
   (forall col, In col required_columns -> In col (Report.columns df)) ->
   ((exists col, In col required_columns /\
                 1 < Report.selected df required_columns col) <->
    ~ NoDup required_columns)) /\
  (forall printed col,
     Report.validate_data df required_columns =
     Report.AmbiguousTruthValue printed col ->
     exists before after,
       required_columns = before ++ col :: after /\
       (forall c, In c before ->
                  Report.selected df required_columns c <= 1) /\
       1 < Report.selected df required_columns col /\
       printed = flat_map (Report.report_line df) before) /\
  ((exists printed df',
      Report.validate_data df required_columns = Report.Valid printed df') <->
   (forall col, In col required_columns -> In col (Report.columns df)) /\
   (list_sum (map (Report.null_count df) required_columns) = 0 \/
    forall col, In col required_columns ->
                Report.selected df required_columns col <= 1)).
Proof.
  pose proof (none_missing df required_columns) as Hnone.
  pose proof (missing_cols_spec df required_columns) as Hin.
  pose proof (report_nulls_cases df required_columns required_columns)
    as Hcases.
  unfold Report.validate_data.
  set (missing := filter _ required_columns) in *.
  split; [destruct missing; [contradiction|reflexivity]|].
  split.
  { destruct missing as [|c m] eqn:E; split.
    - intros [m H].
      destruct (0 <? _)%nat; [destruct (Report.report_nulls _ _ _ _)
                                as [p [x|]]|]; discriminate.
    - intros (col & Hcol). apply Hin in Hcol. destruct Hcol.
    - intros _. exists c. apply Hin. now left.
    - intros _. now eexists. }
  split.
  { destruct missing as [|c m] eqn:E.
    - destruct (Nat.ltb_spec 0 (list_sum (map (Report.null_count df)
                                              required_columns)))
        as [Hpos|Hz].
      + destruct Hcases
          as [[Hall Hr]|(before & col & after & Heq & Hb & Hcol & Hr)];
          rewrite Hr.
        * split.
          -- intros (p & x & H). discriminate.
          -- intros (_ & _ & x & Hx & Hsel). specialize (Hall x Hx). lia.
        * split.
          -- intros _. split; [now apply Hnone|]. split; [exact Hpos|].
             exists col. split; [|exact Hcol].
             rewrite Heq. apply in_or_app. right. now left.
          -- intros _. now eexists; eexists.
      + split.
        * intros (p & x & H). discriminate.
        * intros (_ & Hpos & _). lia.
    - split.
      + intros (p & x & H). discriminate.
      + intros (Hall & _). apply Hnone in Hall. discriminate. }
  split.
  { intros Hnd Hall. split.
    - intros (col & Hcol & Hsel) Hreq.
      unfold Report.selected in Hsel.
      rewrite (proj1 (NoDup_count_occ' string_dec _) Hnd col (Hall col Hcol))
        in Hsel.
      pose proof (proj1 (NoDup_count_occ string_dec _) Hreq col). lia.
    - intros Hreq. destruct (repeated_element _ Hreq) as (col & Hcol & Hc).
      exists col. split; [exact Hcol|]. unfold Report.selected.
      rewrite (proj1 (NoDup_count_occ' string_dec _) Hnd col (Hall col Hcol)).
      lia. }
  split.
  { intros printed col.
    destruct missing as [|c m]; [|discriminate].
    destruct (0 <? _)%nat; [|discriminate].
    destruct Hcases
      as [[Hall Hr]|(before & x & after & Heq & Hb & Hx & Hr)]; rewrite Hr.
    - discriminate.
    - intros [= <- <-]. exists before, after.
      split; [exact Heq|]. split; [exact Hb|]. split; [exact Hx|reflexivity]. }
  destruct missing as [|c m] eqn:E.
  - destruct (Nat.ltb_spec 0 (list_sum (map (Report.null_count df)
                                            required_columns)))
      as [Hpos|Hz].
    + destruct Hcases
        as [[Hall Hr]|(before & col & after & Heq & Hb & Hcol & Hr)];
        rewrite Hr.
      * split.
        -- intros _. split; [now apply Hnone|now right].
        -- intros _. now eexists; eexists.
      * split.
        -- intros (p & d & H). discriminate.
        -- intros (_ & [Hz|Hall]); [lia|].
           assert (Hc : In col required_columns).
           { rewrite Heq. apply in_or_app. right. now left. }
           specialize (Hall col Hc). lia.
    + split.
      * intros _. split; [now apply Hnone|left; lia].
      * intros _. now eexists; eexists.
  - split.
    + intros (p & d & H). discriminate.
    + intros (Hall & _). apply Hnone in Hall. discriminate.
Qed.

Lemma validate_data_missing_columns_witness :
  Report.validate_data (@Report.mkDataFrame nat ["repo_name"] [])
                       ["repo_name"; "总分"]
  = Report.ValueError ["总分"] /\
  exists printed col,
    Report.validate_data
      (Report.mkDataFrame ["repo_name"; "总分"]
         [(fun col => if String.eqb col "总分" then None else Some 1)])
      ["repo_name"; "总分"; "总分"]
    = Report.AmbiguousTruthValue printed col.
Proof.
  split.
  - destruct (validate_data_missing_columns nat
                (Report.mkDataFrame ["repo_name"] []) ["repo_name"; "总分"])
      as [H _].
    apply H. discriminate.
  - destruct (validate_data_missing_columns nat
                (Report.mkDataFrame ["repo_name"; "总分"]
                   [(fun col => if String.eqb col "总分" then None else Some 1)])
                ["repo_name"; "总分"; "总分"])
      as (_ & _ & H & _).
    apply H. split.
    + intros col [<-|[<-|[<-|[]]]]; cbn; tauto.
    + split; [cbn; lia|].
      exists "总分". split; [cbn; tauto|]. vm_compute. lia.
Defined.

(** The same frame and the same columns, as the loop reports them: the
    line of the first column is printed, the second raises. *)
Lemma column_listed_twice_raises :
  Report.validate_data
    (Report.mkDataFrame ["repo_name"; "总分"]
       [(fun col => if String.eqb col "总分" then None else Some 1);
        (fun col => None)])
    ["repo_name"; "总分"; "总分"]
  = Report.AmbiguousTruthValue [("repo_name", 1)] "总分".
Proof. reflexivity. Qed.

(** X19: when validation passes, the frame it returns has the same
    columns and exactly the rows that have no null in a required column,
    in their order; validating it again changes nothing and reports
    nothing; and rows were dropped exactly when nulls were reported. *)
Theorem validate_data_drops_incomplete_rows (cell : Type)
    (df df' : Report.DataFrame cell) (required_columns : list string)
    (printed : list (string * nat)) :
  Report.validate_data df required_columns = Report.Valid printed df' ->
  Report.columns df' = Report.columns df /\
  Report.rows df' =
    filter (fun row =>
              forallb (fun col => negb (Report.is_null row col))
                      required_columns)
           (Report.rows df) /\
  (forall col, In col required_columns -> Report.null_count df' col = 0) /\
  Report.validate_data df' required_columns = Report.Valid [] df' /\
  (printed = [] <-> Report.rows df' = Report.rows df).
Proof.
  unfold Report.validate_data.
  destruct (filter _ required_columns) as [|c m] eqn:Hmiss; [|discriminate].
  set (df0 := Report.dropna df required_columns).
  assert (Hrows : Report.rows df0 =
                  filter (fun row =>
                            forallb (fun col => negb (Report.is_null row col))
                                    required_columns)
                         (Report.rows df)) by reflexivity.
  assert (Hclean : list_sum (map (Report.null_count df0) required_columns) = 0).
  { apply null_counts_zero. intros row Hrow.
    rewrite Hrows in Hrow. now apply filter_In in Hrow. }
  assert (Hprinted : printed =
                     (if (0 <? list_sum (map (Report.null_count df)
                                             required_columns))%nat
                      then flat_map (Report.report_line df) required_columns
                      else []) /\ df' = df0 ->
          Report.columns df' = Report.columns df /\
          Report.rows df' =
            filter (fun row =>
                      forallb (fun col => negb (Report.is_null row col))
                              required_columns)
                   (Report.rows df) /\
          (forall col, In col required_columns ->
                       Report.null_count df' col = 0) /\
          (if (0 <? list_sum (map (Report.null_count df') required_columns))%nat
           then
             match Report.report_nulls df' required_columns required_columns []
             with
             | (printed, None) =>
                 Report.Valid printed (Report.dropna df' required_columns)
             | (printed, Some col) => Report.AmbiguousTruthValue printed col
             end
           else Report.Valid [] (Report.dropna df' required_columns))
          = Report.Valid [] df' /\
          (printed = [] <-> Report.rows df' = Report.rows df)).
  { intros [-> ->].
    split; [reflexivity|]. split; [exact Hrows|]. split; [|split].
    - intros col Hcol. rewrite list_sum_zero in Hclean.
      apply Hclean. apply in_map_iff. now exists col.
    - rewrite Hclean. cbn [Nat.ltb Nat.leb]. f_equal.
      unfold df0, Report.dropna. cbn [Report.columns Report.rows].
      now rewrite filter_twice.
    - rewrite Hrows, filter_all, <- null_counts_zero.
      destruct (Nat.ltb_spec 0 (list_sum (map (Report.null_count df)
                                              required_columns)))
        as [Hpos|Hz].
      + apply report_lines_nil.
      + split; [lia|reflexivity]. }
  destruct (Nat.ltb_spec 0 (list_sum (map (Report.null_count df)
                                          required_columns)))
    as [Hpos|Hz].
  - destruct (report_nulls_cases df required_columns required_columns)
      as [[Hall Hr]|(before & col & after & Heq & Hb & Hcol & Hr)];
      rewrite Hr.
    + intros [= <- <-].
      fold df0. change (Report.columns df0) with (Report.columns df).
      rewrite Hmiss. apply Hprinted. now split.
    + discriminate.
  - intros [= <- <-].
    fold df0. change (Report.columns df0) with (Report.columns df).
    rewrite Hmiss. apply Hprinted. now split.
Qed.

Lemma validate_data_drops_incomplete_rows_witness :
  Report.rows
    (Report.dropna
       (Report.mkDataFrame ["总分"]
          [(fun _ => Some 1); (fun _ => None); (fun _ => Some 3)])
       ["总分"])
  = [(fun _ : string => Some 1); (fun _ => Some 3)].
Proof.
  destruct (validate_data_drops_incomplete_rows nat
              (Report.mkDataFrame ["总分"]
                 [(fun _ => Some 1); (fun _ => None); (fun _ => Some 3)])
              _ ["总分"] _ eq_refl) as (_ & H & _).
  exact H.
Defined.

(** * The run in front of any answer of the API *)

(** ** One fetch *)

(** Runs the try block of [Raw] symbolically: for each request, its answer,
    or one of the three kinds of exception. *)
Ltac raw_answer a :=
  destruct a as [?x|[?status [?message|]|?text]] eqn:?H; cbn beta iota.

Ltac run_raw_fetch g now name :=
  unfold Raw.first_failure, Raw.fetch, Raw.try_block, Raw.bind, Raw.call,
    Raw.sleep, Raw.print, Raw.emit, Raw.assign, Raw.read, Raw.ret;
  cbn beta iota;
  raw_answer (g name);
  [ match goal with
    | x : Raw.Repository |- _ =>
        raw_answer (Raw.get_contributors x);
        [ raw_answer (Raw.get_commits_since x (now - thirty_days)%Z);
          [ raw_answer (Raw.get_commits x) | | | ]
        | | | ]
    end
  | | | ].

(** What is left of the try block of [Raw] when the handler returns is the
    fetch of the tame API. *)
Lemma raw_fetch_returns g t name st :
  Raw.fetch_raises g t name = false ->
  Raw.fetch g t name st =
  (fetch (fun n => tame_answer tame_repo (g n)) t name st, None).
Proof.
  destruct st as [d tr]. unfold Raw.fetch_raises.
  unfold fetch, try_block, bind, call, sleep, print, emit, assign, read, ret.
  run_raw_fetch g t name; intros Hr; try discriminate;
    cbn -[thirty_days Z.sub];
    repeat match goal with
           | H : ?l = _ |- context [?l] => rewrite H; cbn -[thirty_days Z.sub]
           end; reflexivity.
Qed.

(** When the handler raises, the fetch stops at the failing request: it
    made between one and four requests, stored no error and printed none. *)
Lemma raw_fetch_raises g t name d0 :
  Raw.fetch_raises g t name = true ->
  exists d tr,
    Raw.fetch g t name (d0, []) = ((d, tr), Some (AttributeError "get")) /\
    forallb silent tr = true /\
    1 <= List.length (calls tr) <= 4 /\
    rr_error d = rr_error d0.
Proof.
  unfold Raw.fetch_raises.
  run_raw_fetch g t name; intros Hr; try discriminate;
    eexists; eexists; (split; [reflexivity|]);
    (split; [reflexivity|]); (split; [simpl; lia|reflexivity]).
Qed.

(** ** One item *)

Lemma raw_item_returns (w : Raw.world) total i repo_info :
  Raw.handler_raises w i repo_info = false ->
  Raw.item_events w total i repo_info =
  (fst (item_events (tame w) total i repo_info),
   snd (item_events (tame w) total i repo_info), None).
Proof.
  unfold Raw.handler_raises, Raw.item_events, item_events.
  destruct (resolve (github_link repo_info)) as [[|]|[o n]]; try reflexivity.
  intros Hr. rewrite (raw_fetch_returns _ _ _ _ Hr).
  cbn [tame get_repo now].
  destruct (fetch _ _ _ _) as [d tr]. reflexivity.
Qed.

Lemma raw_item_raises (w : Raw.world) total i repo_info :
  Raw.handler_raises w i repo_info = true ->
  resolves repo_info = true /\
  exists tr,
    Raw.item_events w total i repo_info =
    (false,
     Print (MsgProcessing (i + 1) total (item_id repo_info)
                          (github_link repo_info)) :: tr,
     Some (AttributeError "get")) /\
    forallb silent tr = true /\
    1 <= List.length (calls tr) <= 4.
Proof.
  unfold Raw.handler_raises, Raw.item_events, resolves.
  destruct (resolve (github_link repo_info)) as [[|]|[o n]]; try discriminate.
  intros Hr. split; [reflexivity|].
  destruct (raw_fetch_raises _ _ _
              (result_data (item_id repo_info) (github_link repo_info) o n) Hr)
    as (d & tr & -> & Hs & Hc & _).
  exists tr. split; [reflexivity|]. split; assumption.
Qed.

(** ** The sweep *)

Lemma raw_main_loop_sweep (w : Raw.world) repos start st :
  Raw.main_loop w repos start st =
  Raw.sweep w (List.length repos) start (skipn start repos) st.
Proof.
  unfold Raw.main_loop, range. rewrite skipn_length_sub.
  remember (skipn start repos) as todo eqn:Htodo.
  revert start st Htodo.
  induction todo as [|x todo IH]; intros start st Htodo; [reflexivity|].
  symmetry in Htodo. destruct (skipn_cons_nth _ _ _ _ _ Htodo) as [Hn Hs].
  simpl. rewrite Hn. apply IH. now symmetry.
Qed.

Lemma raw_sweep_stopped (w : Raw.world) total i todo st e :
  Raw.sweep w total i todo (st, Some e) = (st, Some e).
Proof.
  revert i. induction todo as [|x todo IH]; intros i; [reflexivity|].
  simpl. apply IH.
Qed.

(** As long as the handlers return, the sweep is the sweep of the tame
    world. *)
Lemma raw_sweep_returns (w : Raw.world) total i todo st :
  Raw.handlers_return w i todo = true ->
  Raw.sweep w total i todo (st, None) = (sweep (tame w) total i todo st, None).
Proof.
  revert i st. induction todo as [|x todo IH]; intros i st; [reflexivity|].
  cbn [Raw.handlers_return Raw.sweep sweep]. intros H.
  apply andb_true_iff in H as [Hx Hrest]. apply negb_true_iff in Hx.
  unfold Raw.loop_body, loop_body. rewrite (raw_item_returns w total i x Hx).
  destruct (item_events (tame w) total i x) as [c tr]. cbn [fst snd].
  now apply IH.
Qed.

(** The first item whose handler raises ends the sweep: the items before
    it are swept as in the tame world, and of the item itself there are
    its progress line and the requests up to the failing one. *)
Lemma raw_sweep_raises (w : Raw.world) total i todo st :
  Raw.handlers_return w i todo = false ->
  exists a x b tr,
    todo = a ++ x :: b /\
    Raw.handlers_return w i a = true /\
    Raw.handler_raises w (i + List.length a) x = true /\
    forallb silent tr = true /\
    1 <= List.length (calls tr) <= 4 /\
    Raw.sweep w total i todo (st, None) =
    (mkLoop (processed_count (sweep (tame w) total i a st))
            (Some (item_id x))
            (log (sweep (tame w) total i a st)
             ++ Print (MsgProcessing (i + List.length a + 1) total (item_id x)
                                     (github_link x)) :: tr),
     Some (AttributeError "get")).
Proof.
  revert i st. induction todo as [|x todo IH]; intros i st; [discriminate|].
  cbn [Raw.handlers_return]. intros H.
  destruct (Raw.handler_raises w i x) eqn:Hx.
  - destruct (raw_item_raises w total i x Hx) as (_ & tr & Hev & Hs & Hc).
    exists [], x, todo, tr. cbn [List.length app sweep Raw.handlers_return].
    rewrite Nat.add_0_r.
    split; [reflexivity|]. split; [reflexivity|]. split; [exact Hx|].
    split; [exact Hs|]. split; [exact Hc|].
    cbn [Raw.sweep]. unfold Raw.loop_body. rewrite Hev.
    apply raw_sweep_stopped.
  - cbn [negb andb] in H.
    cbn [Raw.sweep]. unfold Raw.loop_body.
    rewrite (raw_item_returns w total i x Hx).
    destruct (IH (S i) (loop_body (tame w) total st i x) H)
      as (a & y & b & tr & -> & Ha & Hy & Hs & Hc & Heq).
    exists (x :: a), y, b, tr.
    cbn [List.length app sweep Raw.handlers_return]. rewrite Hx, Ha.
    replace (i + S (List.length a)) with (S i + List.length a) by lia.
    split; [reflexivity|]. split; [reflexivity|]. split; [exact Hy|].
    split; [exact Hs|]. split; [exact Hc|].
    unfold loop_body in Heq |- *.
    destruct (item_events (tame w) total i x) as [c tr0]. cbn [fst snd].
    exact Heq.
Qed.

(** ** The whole run *)

Lemma raw_loads (w : Raw.world) :
  Raw.repos_to_crawl w = repos_to_crawl (tame w).
Proof. reflexivity. Qed.

Lemma raw_main_bad_login (w : Raw.world) (e : Raw.raised) :
  Raw.login w = Raw.Raises e -> Raw.main w = main (tame w).
Proof.
  intros H. unfold Raw.main, main. cbn [tame login]. now rewrite H.
Qed.

Lemma raw_main_no_input (w : Raw.world) :
  Raw.input_file w = None -> Raw.main w = main (tame w).
Proof.
  intros H. unfold Raw.main, main, Raw.repos_to_crawl, repos_to_crawl.
  cbn [tame login input_file]. rewrite H.
  destruct (Raw.login w); reflexivity.
Qed.

(** A run that gets past start-up, in both worlds. *)
Lemma raw_main_started (w : Raw.world) user repos warnings :
  Raw.login w = Raw.Answer user ->
  Raw.repos_to_crawl w = Some (repos, warnings) ->
  exists pre,
    forallb silent pre = true /\
    calls pre = [] /\
    Raw.main w =
      match Raw.sweep w (List.length repos) (offset (tame w))
                      (skipn (offset (tame w)) repos)
                      (mkLoop 0 None pre, None) with
      | (st, Some e) => mkRun (log st) (Uncaught e)
      | (st, None) => finish (tame w) repos (offset (tame w)) st
      end /\
    main (tame w) =
      finish (tame w) repos (offset (tame w))
             (sweep (tame w) (List.length repos) (offset (tame w))
                    (skipn (offset (tame w)) repos) (mkLoop 0 None pre)).
Proof.
  intros Hlogin Hload.
  assert (Hload' : repos_to_crawl (tame w) = Some (repos, warnings)) by exact Hload.
  pose proof (offset_loaded (tame w) _ _ Hload') as Ho.
  unfold Raw.main, main. cbn [tame login]. rewrite Hlogin. cbn [tame_answer].
  fold (tame w). rewrite Hload'. rewrite Hload.
  change (Raw.disk w) with (disk (tame w)).
  destruct (start_index repos (state_file (disk (tame w))))
    as [start resume_log] eqn:Hs.
  cbn [fst] in Ho. subst start.
  assert (Hr : forallb silent resume_log = true /\ calls resume_log = []).
  { unfold start_index in Hs. destruct (state_file (disk (tame w))) as [[|]|];
      injection Hs as _ <-; split; reflexivity. }
  assert (Hw : forallb silent warnings = true /\ calls warnings = []).
  { rewrite repos_to_crawl_spec in Hload'.
    destruct (input_file (tame w)); [|discriminate]. injection Hload' as _ <-.
    split; [apply skipped_lines_silent|apply skipped_lines_calls]. }
  destruct Hr as [Hr1 Hr2]. destruct Hw as [Hw1 Hw2].
  eexists. split; [|split; [|split]].
  3: { rewrite raw_main_loop_sweep. reflexivity. }
  3: { rewrite main_loop_sweep. reflexivity. }
  - cbn [app forallb silent andb].
    repeat apply forallb_silent_app; auto.
  - rewrite !calls_app, Hw2, Hr2. reflexivity.
Qed.

(** As long as every handler returns, the run is the run of the tame
    world. *)
Lemma raw_main_returns (w : Raw.world) :
  Raw.handlers_return w (offset (tame w)) (todo w) = true ->
  Raw.main w = main (tame w).
Proof.
  intros Hret.
  destruct (Raw.login w) as [user|e] eqn:Hlogin;
    [|now apply (raw_main_bad_login w e)].
  destruct (Raw.repos_to_crawl w) as [[repos warnings]|] eqn:Hload.
  - destruct (raw_main_started w _ _ _ Hlogin Hload)
      as (pre & _ & _ & -> & ->).
    unfold todo, loaded in Hret.
    change (repos_to_crawl (tame w)) with (Raw.repos_to_crawl w) in Hret.
    rewrite Hload in Hret.
    now rewrite (raw_sweep_returns w _ _ _ _ Hret).
  - apply raw_main_no_input. unfold Raw.repos_to_crawl in Hload.
    destruct (Raw.input_file w); [discriminate|reflexivity].
Qed.

(** The first handler that raises ends the run. *)
Lemma raw_main_raises (w : Raw.world) user repos warnings :
  Raw.login w = Raw.Answer user ->
  Raw.repos_to_crawl w = Some (repos, warnings) ->
  Raw.handlers_return w (offset (tame w)) (skipn (offset (tame w)) repos)
    = false ->
  exists pre a x b tr,
    forallb silent pre = true /\ calls pre = [] /\
    skipn (offset (tame w)) repos = a ++ x :: b /\
    Raw.handlers_return w (offset (tame w)) a = true /\
    Raw.handler_raises w (offset (tame w) + List.length a) x = true /\
    forallb silent tr = true /\
    1 <= List.length (calls tr) <= 4 /\
    Raw.main w =
    mkRun (pre
           ++ sweep_events (tame w) (List.length repos) (offset (tame w)) a
           ++ Print (MsgProcessing (offset (tame w) + List.length a + 1)
                                   (List.length repos) (item_id x)
                                   (github_link x)) :: tr)
          (Uncaught (AttributeError "get")).
Proof.
  intros Hlogin Hload Hret.
  destruct (raw_main_started w _ _ _ Hlogin Hload)
    as (pre & Hpre & Hcp & -> & _).
  destruct (raw_sweep_raises w (List.length repos) _ _ (mkLoop 0 None pre) Hret)
    as (a & x & b & tr & Hs & Ha & Hx & Htr & Hc & ->).
  exists pre, a, x, b, tr.
  split; [exact Hpre|]. split; [exact Hcp|]. split; [exact Hs|].
  split; [exact Ha|]. split; [exact Hx|]. split; [exact Htr|].
  split; [exact Hc|].
  cbn [log]. rewrite sweep_log. cbn [log]. now rewrite <- app_assoc.
Qed.

(** ** How far the sweep gets *)

Lemma completed_all (w : Raw.world) i todo :
  Raw.handlers_return w i todo = true ->
  Raw.completed w i todo = todo /\ Raw.started w i todo = todo.
Proof.
  revert i. induction todo as [|x todo IH]; intros i; [now split|].
  cbn [Raw.handlers_return Raw.completed Raw.started]. intros H.
  apply andb_true_iff in H as [Hx Hrest]. apply negb_true_iff in Hx.
  rewrite Hx. destruct (IH (S i) Hrest) as [-> ->]. now split.
Qed.

Lemma completed_cut (w : Raw.world) i a x b :
  Raw.handlers_return w i a = true ->
  Raw.handler_raises w (i + List.length a) x = true ->
  Raw.completed w i (a ++ x :: b) = a /\
  Raw.started w i (a ++ x :: b) = a ++ [x].
Proof.
  revert i. induction a as [|y a IH]; intros i.
  - cbn [List.length app Raw.completed Raw.started]. rewrite Nat.add_0_r.
    intros _ ->. now split.
  - cbn [List.length app Raw.handlers_return Raw.completed Raw.started].
    intros H Hx. apply andb_true_iff in H as [Hy Ha].
    apply negb_true_iff in Hy. rewrite Hy.
    replace (i + S (List.length a)) with (S i + List.length a) in Hx by lia.
    destruct (IH (S i) Ha Hx) as [-> ->]. now split.
Qed.

Lemma completed_short (w : Raw.world) i todo :
  Raw.handlers_return w i todo = false ->
  List.length (Raw.completed w i todo) < List.length todo.
Proof.
  revert i. induction todo as [|x todo IH]; intros i; [discriminate|].
  cbn [Raw.handlers_return Raw.completed].
  destruct (Raw.handler_raises w i x); cbn [negb andb List.length]; [lia|].
  intros H. specialize (IH _ H). lia.
Qed.

Lemma enumerate_snoc (l : list WorkItem) (i : nat) (x : WorkItem) :
  enumerate i (l ++ [x]) = enumerate i l ++ [(i + List.length l, x)].
Proof.
  revert i. induction l as [|y l IH]; intros i.
  - cbn. now rewrite Nat.add_0_r.
  - cbn [app enumerate List.length]. rewrite IH.
    now replace (S i + List.length l) with (i + S (List.length l)) by lia.
Qed.

(** The run whose sweep is ended by a handler, in terms of the items the
    sweep got through. *)
Lemma raw_main_cut (w : Raw.world) user repos warnings :
  Raw.login w = Raw.Answer user ->
  Raw.repos_to_crawl w = Some (repos, warnings) ->
  Raw.handlers_return w (offset (tame w)) (skipn (offset (tame w)) repos)
    = false ->
  exists pre x tr,
    forallb silent pre = true /\ calls pre = [] /\
    Raw.started w (offset (tame w)) (skipn (offset (tame w)) repos) =
      Raw.completed w (offset (tame w)) (skipn (offset (tame w)) repos) ++ [x] /\
    resolves x = true /\
    forallb silent tr = true /\
    1 <= List.length (calls tr) <= 4 /\
    Raw.main w =
    mkRun (pre
           ++ sweep_events (tame w) (List.length repos) (offset (tame w))
                (Raw.completed w (offset (tame w))
                               (skipn (offset (tame w)) repos))
           ++ Print (MsgProcessing
                       (offset (tame w)
                        + List.length
                            (Raw.completed w (offset (tame w))
                                           (skipn (offset (tame w)) repos))
                        + 1)
                       (List.length repos) (item_id x) (github_link x)) :: tr)
          (Uncaught (AttributeError "get")).
Proof.
  intros Hlogin Hload Hret.
  destruct (raw_main_raises w _ _ _ Hlogin Hload Hret)
    as (pre & a & x & b & tr & Hpre & Hcp & Hs & Ha & Hx & Htr & Hc & Hm).
  destruct (completed_cut w _ a x b Ha Hx) as [Hdone Hstarted].
  rewrite Hs, Hdone, Hstarted.
  exists pre, x, tr.
  split; [exact Hpre|]. split; [exact Hcp|]. split; [reflexivity|].
  split; [exact (proj1 (raw_item_raises w 0 _ x Hx))|].
  split; [exact Htr|]. split; [exact Hc|]. exact Hm.
Qed.

Lemma started_completed (w : Raw.world) i todo :
  Raw.started w i todo =
  firstn (S (List.length (Raw.completed w i todo))) todo.
Proof.
  revert i. induction todo as [|x todo IH]; intros i; [reflexivity|].
  cbn [Raw.started Raw.completed].
  destruct (Raw.handler_raises w i x).
  - reflexivity.
  - cbn [List.length]. rewrite IH. reflexivity.
Qed.

Lemma handlers_return_completed (w : Raw.world) i todo :
  Raw.handlers_return w i todo = true <-> Raw.completed w i todo = todo.
Proof.
  split.
  - intros H. now apply completed_all.
  - intros H. destruct (Raw.handlers_return w i todo) eqn:E; [reflexivity|].
    apply completed_short in E. rewrite H in E. lia.
Qed.

Lemma todo_loaded (w : Raw.world) repos warnings :
  Raw.repos_to_crawl w = Some (repos, warnings) ->
  loaded (tame w) = repos /\ todo w = skipn (offset (tame w)) repos.
Proof.
  intros H. unfold todo, loaded.
  change (repos_to_crawl (tame w)) with (Raw.repos_to_crawl w).
  now rewrite H.
Qed.

Lemma tame_login (w : Raw.world) user :
  Raw.login w = Raw.Answer user -> login (tame w) = Ok user.
Proof. intros H. cbn [tame login]. now rewrite H. Qed.

Lemma tame_login_raises (w : Raw.world) e :
  Raw.login w = Raw.Raises e -> login (tame w) = Raise (Raw.shown e).
Proof. intros H. cbn [tame login]. now rewrite H. Qed.

(** ** What any run leaves *)

Section RawRun.

Variable w : Raw.world.
Variable user : string.
Variable repos : list WorkItem.
Variable warnings : list event.
Hypothesis Hlogin : Raw.login w = Raw.Answer user.
Hypothesis Hload : Raw.repos_to_crawl w = Some (repos, warnings).

Lemma raw_main_handled :
  Raw.handlers_return w (offset (tame w)) (skipn (offset (tame w)) repos)
    = true ->
  Raw.main w = main (tame w).
Proof.
  intros H. apply raw_main_returns.
  now rewrite (proj2 (todo_loaded w _ _ Hload)).
Qed.

Lemma raw_main_dispatched :
  dispatched (events (Raw.main w)) =
  enumerate (offset (tame w))
            (Raw.started w (offset (tame w)) (skipn (offset (tame w)) repos)).
Proof.
  destruct (Raw.handlers_return w (offset (tame w))
              (skipn (offset (tame w)) repos)) eqn:Hret.
  - rewrite (raw_main_handled Hret).
    rewrite (main_dispatched (tame w) _ _ _ (tame_login w _ Hlogin) Hload).
    now rewrite (proj2 (completed_all w _ _ Hret)).
  - destruct (raw_main_cut w _ _ _ Hlogin Hload Hret)
      as (pre & x & tr & Hpre & _ & Hst & _ & Htr & _ & ->).
    cbn [events]. rewrite Hst, enumerate_snoc.
    rewrite !dispatched_app, (silent_dispatched pre Hpre),
      sweep_events_dispatched.
    cbn [app dispatched]. rewrite (silent_dispatched tr Htr).
    rewrite Nat.add_sub. now destruct x.
Qed.

Lemma raw_main_appended :
  appended (events (Raw.main w)) =
  appended (sweep_events (tame w) (List.length repos) (offset (tame w))
              (Raw.completed w (offset (tame w))
                             (skipn (offset (tame w)) repos))).
Proof.
  destruct (Raw.handlers_return w (offset (tame w))
              (skipn (offset (tame w)) repos)) eqn:Hret.
  - rewrite (raw_main_handled Hret).
    rewrite (main_appended (tame w) _ _ _ (tame_login w _ Hlogin) Hload).
    now rewrite (proj1 (completed_all w _ _ Hret)).
  - destruct (raw_main_cut w _ _ _ Hlogin Hload Hret)
      as (pre & x & tr & Hpre & _ & _ & _ & Htr & _ & ->).
    cbn [events].
    rewrite !appended_app, (silent_appended pre Hpre).
    cbn [app appended]. rewrite (silent_appended tr Htr).
    now rewrite app_nil_r.
Qed.

Lemma raw_main_saved :
  saved (events (Raw.main w)) =
  map item_id
      (filter resolves
              (Raw.completed w (offset (tame w))
                             (skipn (offset (tame w)) repos))).
Proof.
  destruct (Raw.handlers_return w (offset (tame w))
              (skipn (offset (tame w)) repos)) eqn:Hret.
  - rewrite (raw_main_handled Hret).
    rewrite (main_saved (tame w) _ _ _ (tame_login w _ Hlogin) Hload).
    now rewrite (proj1 (completed_all w _ _ Hret)).
  - destruct (raw_main_cut w _ _ _ Hlogin Hload Hret)
      as (pre & x & tr & Hpre & _ & _ & _ & Htr & _ & ->).
    cbn [events].
    rewrite !saved_app, (silent_saved pre Hpre), sweep_events_saved.
    cbn [app saved]. rewrite (silent_saved tr Htr).
    now rewrite app_nil_r.
Qed.

Lemma raw_main_ending :
  ending (Raw.main w) =
  if Raw.handlers_return w (offset (tame w)) (skipn (offset (tame w)) repos)
  then ending (main (tame w))
  else Uncaught (AttributeError "get").
Proof.
  destruct (Raw.handlers_return w (offset (tame w))
              (skipn (offset (tame w)) repos)) eqn:Hret.
  - now rewrite (raw_main_handled Hret).
  - destruct (raw_main_cut w _ _ _ Hlogin Hload Hret)
      as (pre & x & tr & _ & _ & _ & _ & _ & _ & ->).
    reflexivity.
Qed.

Lemma raw_main_state_file :
  state_file (Raw.final_files w) =
  if Raw.handlers_return w (offset (tame w)) (skipn (offset (tame w)) repos)
  then state_file (final_files (tame w))
  else last_counted
         (Raw.completed w (offset (tame w)) (skipn (offset (tame w)) repos))
         (state_file (Raw.disk w)).
Proof.
  unfold Raw.final_files.
  destruct (Raw.handlers_return w (offset (tame w))
              (skipn (offset (tame w)) repos)) eqn:Hret.
  - now rewrite (raw_main_handled Hret).
  - destruct (raw_main_cut w _ _ _ Hlogin Hload Hret)
      as (pre & x & tr & Hpre & _ & _ & _ & Htr & _ & ->).
    cbn [events].
    rewrite !replay_app, (silent_replay pre _ Hpre).
    change (replay ?fs (Print ?m :: tr)) with (replay fs tr).
    rewrite (silent_replay tr _ Htr).
    apply sweep_events_state_file.
Qed.

Lemma raw_main_calls :
  let done := Raw.completed w (offset (tame w))
                            (skipn (offset (tame w)) repos) in
  if Raw.handlers_return w (offset (tame w)) (skipn (offset (tame w)) repos)
  then counted done <= List.length (calls (events (Raw.main w)))
       <= 4 * counted done
  else counted done + 1 <= List.length (calls (events (Raw.main w)))
       <= 4 * counted done + 4.
Proof.
  intros done. subst done.
  destruct (Raw.handlers_return w (offset (tame w))
              (skipn (offset (tame w)) repos)) eqn:Hret.
  - rewrite (raw_main_handled Hret).
    rewrite (main_calls (tame w) _ _ _ (tame_login w _ Hlogin) Hload).
    rewrite (proj1 (completed_all w _ _ Hret)).
    apply sweep_events_calls.
  - destruct (raw_main_cut w _ _ _ Hlogin Hload Hret)
      as (pre & x & tr & _ & Hpre & _ & _ & _ & Hc & ->).
    cbn [events]. rewrite !calls_app, Hpre. cbn [app calls].
    rewrite length_app.
    pose proof (sweep_events_calls (tame w) (List.length repos)
                  (offset (tame w))
                  (Raw.completed w (offset (tame w))
                                 (skipn (offset (tame w)) repos))).
    lia.
Qed.

Lemma raw_appended_count :
  List.length (appended (events (Raw.main w))) =
  counted (Raw.completed w (offset (tame w)) (skipn (offset (tame w)) repos)).
Proof.
  rewrite raw_main_appended, counted_filter.
  rewrite <- (length_map (fun r => (rr_id r, rr_link r))).
  rewrite sweep_events_appended. now rewrite length_map.
Qed.

End RawRun.

Lemma raw_main_well_paired (w : Raw.world) :
  well_paired (events (Raw.main w)) = true.
Proof.
  destruct (Raw.login w) as [user|e] eqn:Hlogin;
    [|rewrite (raw_main_bad_login w e Hlogin); apply main_well_paired].
  destruct (Raw.repos_to_crawl w) as [[repos warnings]|] eqn:Hload.
  - destruct (Raw.handlers_return w (offset (tame w))
                (skipn (offset (tame w)) repos)) eqn:Hret.
    + rewrite (raw_main_handled w _ _ Hload Hret). apply main_well_paired.
    + destruct (raw_main_cut w _ _ _ Hlogin Hload Hret)
        as (pre & x & tr & Hpre & _ & _ & _ & Htr & _ & ->).
      cbn [events].
      rewrite well_paired_app by now apply silent_well_paired.
      rewrite well_paired_app by apply sweep_events_well_paired.
      cbn [well_paired]. now apply silent_well_paired.
  - rewrite raw_main_no_input; [apply main_well_paired|].
    unfold Raw.repos_to_crawl in Hload.
    destruct (Raw.input_file w); [discriminate|reflexivity].
Qed.

(** ** A failure the handler cannot format *)

(** C4 fails on an error whose body is empty: the first request of the
    first item raises a [GithubException] whose data is [None], the handler
    of line 139 raises [AttributeError] on [e.data.get], and the process
    dies there: one request was made, no record was appended for the item
    (the output file has no line at all), no checkpoint was saved, the
    second item was never dispatched, and the exit status is 1. *)
Theorem empty_body_error_leaves_no_record :
  Raw.get_repo RawScenario.empty_body "acme/widget"
    = Raw.Raises (Raw.RaisedGithub 502 Raw.NotDict) /\
  todo RawScenario.empty_body = [Scenario.item1; Scenario.item3] /\
  resolve (github_link Scenario.item1) = inr ("acme", "widget") /\
  dispatched (events (Raw.main RawScenario.empty_body))
    = [(0, Scenario.item1)] /\
  calls (events (Raw.main RawScenario.empty_body))
    = [GetRepo "acme/widget"] /\
  appended (events (Raw.main RawScenario.empty_body)) = [] /\
  output_file (Raw.final_files RawScenario.empty_body) = [] /\
  state_file (Raw.final_files RawScenario.empty_body) = None /\
  ending (Raw.main RawScenario.empty_body)
    = Uncaught (AttributeError "get") /\
  exit_status (ending (Raw.main RawScenario.empty_body)) = 1%Z.
Proof. repeat split. Qed.

(** The same two items in front of an API whose errors have a body: the
    failing item gets its record. *)
Lemma error_with_body_is_recorded :
  map (fun r => (rr_id r, rr_error r))
      (appended (events (Raw.main RawScenario.with_body)))
  = [(1%Z, None); (3%Z, Some "GitHub API 错误: 404 - Not Found")] /\
  ending (Raw.main RawScenario.with_body) = Finished.
Proof. split; reflexivity. Qed.

(** ** How a run ends, whatever the API answers *)




(** ** What a run writes and asks, whatever the API answers *)

(** X7: the output file only grows, and by exactly one record for each
    resolvable item the sweep gets through: after the run it is the file
    found at start-up followed by the records of the resolvable items from
    the offset on, up to the first item whose handler raises, in the order
    of the work list, each with the id and the link of its item; the ids
    saved to the state file during the run are the ids of these records,
    in the same order; and a run that finishes got through every item
    from the offset on. *)
Theorem output_covers_resolvable_items (w : Raw.world) (user : string)
    (repos : list WorkItem) (warnings : list event) :
  Raw.login w = Raw.Answer user ->
  Raw.repos_to_crawl w = Some (repos, warnings) ->
  output_file (Raw.final_files w) =
    output_file (Raw.disk w) ++ appended (events (Raw.main w)) /\
  map (fun r => (rr_id r, rr_link r)) (appended (events (Raw.main w))) =
    map (fun x => (item_id x, github_link x))
        (filter resolves
                (Raw.completed w (offset (tame w))
                               (skipn (offset (tame w)) repos))) /\
  saved (events (Raw.main w)) = map rr_id (appended (events (Raw.main w))) /\
  (ending (Raw.main w) = Finished ->
   Raw.completed w (offset (tame w)) (skipn (offset (tame w)) repos)
   = skipn (offset (tame w)) repos).
Proof.
  intros Hlogin Hload. split; [apply replay_output|]. split; [|split].
  - rewrite (raw_main_appended w _ _ _ Hlogin Hload).
    apply sweep_events_appended.
  - apply well_paired_saved, raw_main_well_paired.
  - rewrite (raw_main_ending w _ _ _ Hlogin Hload).
    destruct (Raw.handlers_return w (offset (tame w))
                (skipn (offset (tame w)) repos)) eqn:Hret; [|discriminate].
    intros _. now apply completed_all.
Qed.

Lemma output_covers_resolvable_items_witness :
  map (fun r => (rr_id r, rr_link r))
      (appended (events (Raw.main RawScenario.with_body)))
  = [(1%Z, "https://github.com/acme/widget");
     (3%Z, "https://github.com/acme/gadget")] /\
  appended (events (Raw.main RawScenario.empty_body)) = [].
Proof.
  split.
  - destruct (output_covers_resolvable_items RawScenario.with_body "crawler"
                [Scenario.item1; Scenario.item3] [] eq_refl eq_refl)
      as (_ & H & _).
    exact H.
  - destruct (output_covers_resolvable_items RawScenario.empty_body "crawler"
                [Scenario.item1; Scenario.item3] [] eq_refl eq_refl)
      as (_ & H & _).
    destruct (appended (events (Raw.main RawScenario.empty_body)));
      [reflexivity|discriminate H].
Defined.

(** X11: a run makes remote calls only for the items it starts on (the
    check of the token at start-up apart): at least one and at most four
    for each record it appends, and, when a handler that cannot format
    its exception ends the run, at least one and at most four more, for
    the item that was being fetched and has no record. *)
Theorem api_budget (w : Raw.world) :
  (ending (Raw.main w) <> Uncaught (AttributeError "get") ->
   List.length (appended (events (Raw.main w)))
     <= List.length (calls (events (Raw.main w)))
     <= 4 * List.length (appended (events (Raw.main w)))) /\
  (ending (Raw.main w) = Uncaught (AttributeError "get") ->
   List.length (appended (events (Raw.main w))) + 1
     <= List.length (calls (events (Raw.main w)))
     <= 4 * List.length (appended (events (Raw.main w))) + 4).
Proof.
  destruct (Raw.login w) as [user|e] eqn:Hlogin.
  - destruct (Raw.repos_to_crawl w) as [[repos warnings]|] eqn:Hload.
    + rewrite (raw_main_ending w _ _ _ Hlogin Hload).
      rewrite (raw_appended_count w _ _ _ Hlogin Hload).
      pose proof (raw_main_calls w _ _ _ Hlogin Hload) as Hc.
      cbv zeta in Hc.
      destruct (Raw.handlers_return w (offset (tame w))
                  (skipn (offset (tame w)) repos)) eqn:Hret.
      * split; [intros _; exact Hc|].
        intros Hend. exfalso.
        pose proof (tame_login w _ Hlogin) as Hlogin'.
        destruct (Nat.le_gt_cases (List.length repos) (offset (tame w)))
          as [H|H].
        -- destruct (main_nothing_swept (tame w) _ _ _ Hlogin' Hload H)
             as (tr & _ & Hm).
           rewrite Hm in Hend. discriminate.
        -- destruct (main_swept (tame w) _ _ _ Hlogin' Hload H) as [Hm _].
           rewrite Hm in Hend. discriminate.
      * split; [intros Hne; now contradiction Hne|].
        intros _. exact Hc.
    + assert (Hin : Raw.input_file w = None).
      { unfold Raw.repos_to_crawl in Hload. destruct (Raw.input_file w);
          [discriminate|reflexivity]. }
      rewrite (raw_main_no_input w Hin).
      unfold main. rewrite (tame_login w _ Hlogin).
      change (repos_to_crawl (tame w)) with (Raw.repos_to_crawl w).
      rewrite Hload. cbn. split; [lia|discriminate].
  - rewrite (raw_main_bad_login w e Hlogin).
    unfold main. rewrite (tame_login_raises w e Hlogin).
    cbn. split; [lia|discriminate].
Qed.

(** X12: failures of single items are isolated as far as their handlers
    return: in front of two APIs (and two clocks) that let the sweep get
    equally far, in particular two APIs none of whose exceptions leaves a
    handler, the same items are dispatched, the same ids are saved to the
    state file, the state file ends the same and the process ends the
    same way, whatever else the two APIs answer. *)
Theorem item_failures_are_isolated (w : Raw.world)
    (g : string -> Raw.answer Raw.Repository) (clock : nat -> Z) :
  Raw.completed (Raw.with_api w g clock) (offset (tame w)) (todo w)
    = Raw.completed w (offset (tame w)) (todo w) ->
  dispatched (events (Raw.main (Raw.with_api w g clock)))
    = dispatched (events (Raw.main w)) /\
  saved (events (Raw.main (Raw.with_api w g clock)))
    = saved (events (Raw.main w)) /\
  state_file (Raw.final_files (Raw.with_api w g clock))
    = state_file (Raw.final_files w) /\
  ending (Raw.main (Raw.with_api w g clock)) = ending (Raw.main w).
Proof.
  set (w' := Raw.with_api w g clock). intros Hsame.
  destruct (Raw.login w) as [user|e] eqn:Hlogin.
  - destruct (Raw.repos_to_crawl w) as [[repos warnings]|] eqn:Hload.
    + assert (Hlogin' : Raw.login w' = Raw.Answer user) by exact Hlogin.
      assert (Hload' : Raw.repos_to_crawl w' = Some (repos, warnings))
        by exact Hload.
      assert (Ho : offset (tame w') = offset (tame w)) by reflexivity.
      rewrite (proj2 (todo_loaded w _ _ Hload)) in Hsame.
      assert (Hret : Raw.handlers_return w' (offset (tame w))
                       (skipn (offset (tame w)) repos)
                     = Raw.handlers_return w (offset (tame w))
                       (skipn (offset (tame w)) repos)).
      { destruct (Raw.handlers_return w (offset (tame w))
                    (skipn (offset (tame w)) repos)) eqn:E.
        - apply handlers_return_completed. rewrite Hsame.
          now apply handlers_return_completed.
        - destruct (Raw.handlers_return w' (offset (tame w))
                      (skipn (offset (tame w)) repos)) eqn:E';
            [|reflexivity].
          apply handlers_return_completed in E'. rewrite Hsame in E'.
          apply handlers_return_completed in E'. congruence. }
      rewrite (raw_main_dispatched w' _ _ _ Hlogin' Hload'),
        (raw_main_dispatched w _ _ _ Hlogin Hload),
        (raw_main_saved w' _ _ _ Hlogin' Hload'),
        (raw_main_saved w _ _ _ Hlogin Hload),
        (raw_main_state_file w' _ _ _ Hlogin' Hload'),
        (raw_main_state_file w _ _ _ Hlogin Hload),
        (raw_main_ending w' _ _ _ Hlogin' Hload'),
        (raw_main_ending w _ _ _ Hlogin Hload), Ho.
      rewrite !started_completed, Hsame, Hret.
      split; [reflexivity|]. split; [reflexivity|].
      destruct (same_sweep_whatever_answers (tame w)
                  (fun name => tame_answer tame_repo (g name)) clock)
        as (_ & _ & Hf & He).
      change (with_api (tame w) (fun name => tame_answer tame_repo (g name))
                       clock) with (tame w') in Hf, He.
      destruct (Raw.handlers_return w (offset (tame w))
                  (skipn (offset (tame w)) repos));
        split; (assumption || reflexivity).
    + assert (Hload' : Raw.repos_to_crawl w' = None) by exact Hload.
      unfold Raw.final_files, Raw.main. rewrite Hload', Hload.
      cbn [w' Raw.with_api Raw.login]. rewrite Hlogin. repeat split.
  - unfold Raw.final_files, Raw.main. cbn [w' Raw.with_api Raw.login].
    rewrite Hlogin. repeat split.
Qed.

Lemma item_failures_are_isolated_witness :
  Raw.handlers_return RawScenario.with_body 0
    [Scenario.item1; Scenario.item3] = true /\
  saved (events (Raw.main
                   (Raw.with_api RawScenario.with_body
                      (fun _ => Raw.Raises (Raw.RaisedOther "timed out"))
                      Scenario.clock)))
  = [1%Z; 3%Z] /\
  ending (Raw.main
            (Raw.with_api RawScenario.with_body
               (fun _ => Raw.Raises (Raw.RaisedOther "timed out"))
               Scenario.clock))
  = Finished.
Proof.
  split; [reflexivity|].
  destruct (item_failures_are_isolated RawScenario.with_body
              (fun _ => Raw.Raises (Raw.RaisedOther "timed out"))
              Scenario.clock eq_refl) as (_ & Hs & _ & He).
  split; [rewrite Hs|rewrite He]; reflexivity.
Defined.
